(** * Parcel core: asset identity, invalidation digests, generation cache

    A shallow embedding of [packages/core/core/src/assetUtils.js], of the
    declarations of [@parcel/types] it relies on, and of the PostCSS
    transformer, followed by the properties proved about them. *)

From Stdlib Require Import ZArith Lia.
From stdpp Require Import base option list gmap strings sorting.

Open Scope string_scope.
Open Scope list_scope.

(** ** JavaScript values shared by all modules *)

(** A call either returns a value or throws [new Error(msg)]. *)
Inductive result (A : Type) : Type :=
| Ok (a : A)
| Throw (msg : string).
Arguments Ok {A} a.
Arguments Throw {A} msg.

Definition result_bind {A B} (r : result A) (k : A → result B) : result B :=
  match r with
  | Ok a => k a
  | Throw msg => Throw msg
  end.

Declare Scope result_scope.
Delimit Scope result_scope with result.
Notation "'try' x := e 'in' k" := (result_bind e (λ x, k))
  (at level 10, x name, e at level 100, k at level 200) : result_scope.

(** The value a caller observes, with the error message forgotten. *)
Definition returned {A} (r : result A) : option A :=
  match r with
  | Ok a => Some a
  | Throw _ => None
  end.

(** [nullthrows(x)] of the [nullthrows] package. *)
Definition nullthrows {A} (x : option A) : result A :=
  match x with
  | Some a => Ok a
  | None => Throw "Got unexpected null"
  end.

(** [process.env], [QueryParameters]: JS objects used as maps from names
    to strings. *)
Abbreviation EnvMap := (gmap string string) (only parsing).
Abbreviation QueryParameters := (gmap string string) (only parsing).

(** [BundleBehavior = 'inline' | 'isolated'] *)
Inductive BundleBehavior : Type := inline | isolated.

(** What lives outside of the modelled files: the hash functions of
    [@parcel/hash] and [@parcel/utils], [hashFromOption] of [./utils],
    [objectSortedEntries], [JSON.stringify], the table [BundleBehavior] of
    [./types], and the types the code only passes around. *)
Class Collaborators : Type := {
  FileSystem : Type;
  Mixed : Type;
  Environment : Type;
  Dependency : Type;
  JSONValue : Type;
  AST : Type;
  SourceMap : Type;
  hashString : string → string;
  (* how the promise of [hashFile(fs, filePath)] settles: fulfilled with
     the hash of the file, or rejected with the error of the file system *)
  hashFile : FileSystem → string → result string;
  (* applied to [options[key]], which is [undefined] for a missing key *)
  hashFromOption : option (EnvMap + FileSystem + Mixed) → string;
  (* [env.id] *)
  environmentId : Environment → string;
  objectSortedEntries : QueryParameters → list (string * string);
  JSON_stringify : list (string * string) → string;
  BundleBehaviorMap : BundleBehavior → Z;
  (* [map.toBuffer()] *)
  toBuffer : SourceMap → string;
}.

(** [Meta = JSONObject] *)
Abbreviation Meta := (gmap string JSONValue) (only parsing).

(** ** Records of [./types] and [@parcel/types] *)

(** [RequestInvalidation]: [filePath] is read for type ['file'], [key] for
    the types ['env'] and ['option']; the code reads no other field. *)
Module RequestInvalidation.
Record t : Type := {
  type : string;
  filePath : string;
  key : string;
}.
End RequestInvalidation.

(** The fields of [ParcelOptions] that the code reads by name, and the
    remaining ones, which it only reaches through [options[key]]. *)
Module ParcelOptions.
Section Fields.
Context `{Collaborators}.

Record t : Type := {
  inputFS : FileSystem;
  env : EnvMap;
  otherOptions : gmap string Mixed;
}.

(** [options[key]] *)
Definition get (options : t) (key : string)
  : option (EnvMap + FileSystem + Mixed) :=
  if String.eqb key "env" then Some (inl (inl (env options)))
  else if String.eqb key "inputFS" then Some (inl (inr (inputFS options)))
  else inr <$> otherOptions options !! key.

(** [{...options, env}] *)
Definition withEnv (env' : EnvMap) (options : t) : t :=
  {| inputFS := inputFS options;
     env := env';
     otherOptions := otherOptions options |}.
End Fields.
End ParcelOptions.

Module Stats.
Record t : Type := { time : Z; size : Z }.
End Stats.

Record ASTGenerator : Type := { generatorType : string; version : string }.

Record SourceLocation : Type := {
  locFilePath : string;
  locStart : Z * Z;
  locEnd : Z * Z;
}.

Module AssetOptions.
Section Fields.
Context `{Collaborators}.

Record symbolEntry : Type := {
  local : string;
  loc : option SourceLocation;
  symbolMeta : option Meta;
}.

(** An optional field that is absent, [undefined] or [null] is [None]. *)
Record t : Type := {
  id : option string;
  committed : option bool;
  hash : option string;
  idBase : option string;
  filePath : string;
  query : option QueryParameters;
  type : string;
  contentKey : option string;
  mapKey : option string;
  astKey : option string;
  astGenerator : option ASTGenerator;
  dependencies : option (gmap string Dependency);
  bundleBehavior : option BundleBehavior;
  isBundleSplittable : option bool;
  isSource : bool;
  env : Environment;
  meta : option Meta;
  outputHash : option string;
  pipeline : option string;
  stats : Stats.t;
  symbols : option (gmap string symbolEntry);
  sideEffects : option bool;
  uniqueKey : option string;
  plugin : option string;
  configPath : option string;
  configKeyPath : option string;
}.

(** [{...options, idBase: undefined, filePath, type}] *)
Definition withPath (filePath' type' : string) (options : t) : t :=
  {| id := id options; committed := committed options; hash := hash options;
     idBase := None; filePath := filePath'; query := query options;
     type := type'; contentKey := contentKey options;
     mapKey := mapKey options; astKey := astKey options;
     astGenerator := astGenerator options;
     dependencies := dependencies options;
     bundleBehavior := bundleBehavior options;
     isBundleSplittable := isBundleSplittable options;
     isSource := isSource options; env := env options; meta := meta options;
     outputHash := outputHash options; pipeline := pipeline options;
     stats := stats options; symbols := symbols options;
     sideEffects := sideEffects options; uniqueKey := uniqueKey options;
     plugin := plugin options; configPath := configPath options;
     configKeyPath := configKeyPath options |}.

(** [{...options, uniqueKey}] *)
Definition withUniqueKey (uniqueKey' : option string) (options : t) : t :=
  {| id := id options; committed := committed options; hash := hash options;
     idBase := idBase options; filePath := filePath options;
     query := query options; type := type options;
     contentKey := contentKey options; mapKey := mapKey options;
     astKey := astKey options; astGenerator := astGenerator options;
     dependencies := dependencies options;
     bundleBehavior := bundleBehavior options;
     isBundleSplittable := isBundleSplittable options;
     isSource := isSource options; env := env options; meta := meta options;
     outputHash := outputHash options; pipeline := pipeline options;
     stats := stats options; symbols := symbols options;
     sideEffects := sideEffects options; uniqueKey := uniqueKey';
     plugin := plugin options; configPath := configPath options;
     configKeyPath := configKeyPath options |}.

(** [{...options, idBase}] *)
Definition withIdBase (idBase' : option string) (options : t) : t :=
  {| id := id options; committed := committed options; hash := hash options;
     idBase := idBase'; filePath := filePath options;
     query := query options; type := type options;
     contentKey := contentKey options; mapKey := mapKey options;
     astKey := astKey options; astGenerator := astGenerator options;
     dependencies := dependencies options;
     bundleBehavior := bundleBehavior options;
     isBundleSplittable := isBundleSplittable options;
     isSource := isSource options; env := env options; meta := meta options;
     outputHash := outputHash options; pipeline := pipeline options;
     stats := stats options; symbols := symbols options;
     sideEffects := sideEffects options; uniqueKey := uniqueKey options;
     plugin := plugin options; configPath := configPath options;
     configKeyPath := configKeyPath options |}.

(** The path an identity starts from: [idBase], or else [filePath]. *)
Definition basePath (options : t) : string :=
  default (filePath options) (idBase options).

(** Two records of options that agree on the file path, the type, the id
    of the environment, the pipeline and the query, and not on
    [uniqueKey]. *)
Definition differInUniqueKey (options1 options2 : t) : Prop :=
  filePath options1 = filePath options2
  ∧ type options1 = type options2
  ∧ environmentId (env options1) = environmentId (env options2)
  ∧ pipeline options1 = pipeline options2
  ∧ query options1 = query options2
  ∧ uniqueKey options1 ≠ uniqueKey options2.
End Fields.
End AssetOptions.

(** The [Asset] value of [./types], as the object literal in [createAsset]
    builds it. *)
Module Asset.
Section Fields.
Context `{Collaborators}.

Record t : Type := {
  id : string;
  committed : bool;
  hash : option string;
  filePath : string;
  query : option QueryParameters;
  bundleBehavior : option Z;
  isBundleSplittable : bool;
  type : string;
  contentKey : option string;
  mapKey : option string;
  astKey : option string;
  astGenerator : option ASTGenerator;
  dependencies : gmap string Dependency;
  isSource : bool;
  outputHash : option string;
  pipeline : option string;
  env : Environment;
  meta : Meta;
  stats : Stats.t;
  symbols : option (gmap string AssetOptions.symbolEntry);
  sideEffects : bool;
  uniqueKey : string;
  plugin : option string;
  configPath : option string;
  configKeyPath : option string;
}.
End Fields.
End Asset.

(** ** [assetUtils.js]: asset identity and creation *)

Section AssetUtils.
Context `{Collaborators}.

(** The string that [createAssetIdFromOptions] hands to [hashString]. *)
Definition identityInput (options : AssetOptions.t) : string :=
  let uniqueKey := default "" (AssetOptions.uniqueKey options) in
  let idBase :=
    match AssetOptions.idBase options with
    | Some idBase => idBase
    | None => AssetOptions.filePath options
    end in
  let queryString :=
    match AssetOptions.query options with
    | Some query => JSON_stringify (objectSortedEntries query)
    | None => ""
    end in
  idBase
    +:+ AssetOptions.type options
    +:+ environmentId (AssetOptions.env options)
    +:+ uniqueKey
    +:+ ":"
    +:+ default "" (AssetOptions.pipeline options)
    +:+ ":"
    +:+ queryString.

Definition createAssetIdFromOptions (options : AssetOptions.t) : string :=
  let uniqueKey := default "" (AssetOptions.uniqueKey options) in
  let idBase :=
    match AssetOptions.idBase options with
    | Some idBase => idBase
    | None => AssetOptions.filePath options
    end in
  let queryString :=
    match AssetOptions.query options with
    | Some query => JSON_stringify (objectSortedEntries query)
    | None => ""
    end in
  hashString
    (idBase
       +:+ AssetOptions.type options
       +:+ environmentId (AssetOptions.env options)
       +:+ uniqueKey
       +:+ ":"
       +:+ default "" (AssetOptions.pipeline options)
       +:+ ":"
       +:+ queryString).

Definition createAsset (options : AssetOptions.t) : Asset.t :=
  {| Asset.id :=
       match AssetOptions.id options with
       | Some id => id
       | None => createAssetIdFromOptions options
       end;
     Asset.committed := default false (AssetOptions.committed options);
     Asset.hash := AssetOptions.hash options;
     Asset.filePath := AssetOptions.filePath options;
     Asset.query := AssetOptions.query options;
     Asset.bundleBehavior :=
       match AssetOptions.bundleBehavior options with
       | Some behavior => Some (BundleBehaviorMap behavior)
       | None => None
       end;
     Asset.isBundleSplittable :=
       default true (AssetOptions.isBundleSplittable options);
     Asset.type := AssetOptions.type options;
     Asset.contentKey := AssetOptions.contentKey options;
     Asset.mapKey := AssetOptions.mapKey options;
     Asset.astKey := AssetOptions.astKey options;
     Asset.astGenerator := AssetOptions.astGenerator options;
     Asset.dependencies := default ∅ (AssetOptions.dependencies options);
     Asset.isSource := AssetOptions.isSource options;
     Asset.outputHash := AssetOptions.outputHash options;
     Asset.pipeline := AssetOptions.pipeline options;
     Asset.env := AssetOptions.env options;
     Asset.meta := default ∅ (AssetOptions.meta options);
     Asset.stats := AssetOptions.stats options;
     Asset.symbols := AssetOptions.symbols options;
     Asset.sideEffects := default true (AssetOptions.sideEffects options);
     Asset.uniqueKey := default "" (AssetOptions.uniqueKey options);
     Asset.plugin := AssetOptions.plugin options;
     Asset.configPath := AssetOptions.configPath options;
     Asset.configKeyPath := AssetOptions.configKeyPath options |}.
End AssetUtils.

(** ** [assetUtils.js]: invalidation ids and digests *)

(** [hashCache]: from a file path to the promise that [hashFile] returned
    when the path was first seen, kept as the way that promise settles. *)
Abbreviation HashCache := (gmap string (result string)) (only parsing).

Section Invalidation.
Context `{Collaborators}.

Definition getInvalidationId (invalidation : RequestInvalidation.t)
  : result string :=
  if String.eqb (RequestInvalidation.type invalidation) "file" then
    Ok ("file:" +:+ RequestInvalidation.filePath invalidation)
  else if String.eqb (RequestInvalidation.type invalidation) "env" then
    Ok ("env:" +:+ RequestInvalidation.key invalidation)
  else if String.eqb (RequestInvalidation.type invalidation) "option" then
    Ok ("option:" +:+ RequestInvalidation.key invalidation)
  else
    Throw ("Unknown invalidation type: "
             +:+ RequestInvalidation.type invalidation).

(** The comparator handed to [sort]:
    [(a, b) => (getInvalidationId(a) < getInvalidationId(b) ? -1 : 1)]. *)
Definition compareInvalidations (a b : RequestInvalidation.t) : result Z :=
  (try ida := getInvalidationId a in
   try idb := getInvalidationId b in
   Ok (if String.ltb ida idb then (-1)%Z else 1%Z))%result.

(** [Array.prototype.sort(comparefn)] as an insertion sort: an element goes
    in front of the first element it compares below. A throwing comparator
    aborts the sort. *)
Fixpoint sortInsert {A} (comparefn : A → A → result Z) (x : A) (l : list A)
  : result (list A) :=
  match l with
  | [] => Ok [x]
  | y :: l' =>
    (try c := comparefn x y in
     if (c <? 0)%Z then Ok (x :: y :: l')
     else try r := sortInsert comparefn x l' in Ok (y :: r))%result
  end.

Fixpoint sort {A} (comparefn : A → A → result Z) (l : list A)
  : result (list A) :=
  match l with
  | [] => Ok []
  | x :: l' => (try s := sort comparefn l' in sortInsert comparefn x s)%result
  end.

(** One turn of the [for ... of] loop over the sorted invalidations: the
    new value of [hashes], or the error thrown, and [hashCache] as the turn
    leaves it. The promise of a file enters [hashCache] before it is
    awaited, so that it stays there when it is rejected. *)
Definition hashInvalidation (options : ParcelOptions.t) (hashes : string)
    (invalidation : RequestInvalidation.t) (hashCache : HashCache)
  : result string * HashCache :=
  if String.eqb (RequestInvalidation.type invalidation) "file" then
    match hashCache !! RequestInvalidation.filePath invalidation with
    | Some fileHash =>
      ((try awaited := fileHash in Ok (hashes +:+ awaited))%result, hashCache)
    | None =>
      let fileHash :=
        hashFile (ParcelOptions.inputFS options)
                 (RequestInvalidation.filePath invalidation) in
      ((try awaited := fileHash in Ok (hashes +:+ awaited))%result,
       <[RequestInvalidation.filePath invalidation := fileHash]> hashCache)
    end
  else if String.eqb (RequestInvalidation.type invalidation) "env" then
    (Ok (hashes
           +:+ (RequestInvalidation.key invalidation +:+ ":"
                  +:+ default ""
                        (ParcelOptions.env options
                           !! RequestInvalidation.key invalidation))),
     hashCache)
  else if String.eqb (RequestInvalidation.type invalidation) "option" then
    (Ok (hashes
           +:+ (RequestInvalidation.key invalidation +:+ ":"
                  +:+ hashFromOption
                        (ParcelOptions.get options
                           (RequestInvalidation.key invalidation)))),
     hashCache)
  else
    (Throw ("Unknown invalidation type: "
              +:+ RequestInvalidation.type invalidation),
     hashCache).

Fixpoint hashInvalidations (options : ParcelOptions.t) (hashes : string)
    (sortedInvalidations : list RequestInvalidation.t)
    (hashCache : HashCache) : result string * HashCache :=
  match sortedInvalidations with
  | [] => (Ok hashes, hashCache)
  | invalidation :: rest =>
    match hashInvalidation options hashes invalidation hashCache with
    | (Ok hashes', hashCache') =>
      hashInvalidations options hashes' rest hashCache'
    | (Throw msg, hashCache') => (Throw msg, hashCache')
    end
  end.

Definition getInvalidationHash
    (invalidations : list RequestInvalidation.t) (options : ParcelOptions.t)
    (hashCache : HashCache) : result string * HashCache :=
  if (length invalidations =? 0)%nat then (Ok "", hashCache)
  else
    match sort compareInvalidations invalidations with
    | Throw msg => (Throw msg, hashCache)
    | Ok sortedInvalidations =>
      match hashInvalidations options "" sortedInvalidations hashCache with
      | (Ok hashes, hashCache') => (Ok (hashString hashes), hashCache')
      | (Throw msg, hashCache') => (Throw msg, hashCache')
      end
    end.

(** The digest a caller of [getInvalidationHash] receives, if any. *)
Definition digest (r : result string * HashCache) : option string :=
  returned (fst r).
End Invalidation.

(** ** [assetUtils.js]: generation from the AST, behind a cache *)

(** [Blob = string | Buffer | Readable], each with the bytes it holds. *)
Inductive Blob : Type :=
| BlobString (s : string)
| BlobBuffer (bytes : string)
| BlobReadable (bytes : string).

Definition blobBytes (b : Blob) : string :=
  match b with
  | BlobString s => s
  | BlobBuffer bytes => bytes
  | BlobReadable bytes => bytes
  end.

(** A JS object: where it lives, which is what a [WeakMap] keys on, and
    what its fields hold. *)
Record Object (A : Type) : Type := { address : positive; fields : A }.
Arguments address {A} o.
Arguments fields {A} o.

Module GenerateOutput.
Section Fields.
Context `{Collaborators}.

Record t : Type := { content : Blob; map : option SourceMap }.
End Fields.
End GenerateOutput.

(** [Promise<GenerateOutput>]: which promise it is, and how it settles. *)
Module Promise.
Section Fields.
Context `{Collaborators}.

Record t : Type := { id : nat; settled : result GenerateOutput.t }.
End Fields.
End Promise.

Section GenerationTypes.
Context `{Collaborators}.

(** A [Transformer] plugin; [generate] is the one method called here. *)
Record Transformer : Type := {
  generate :
    option (Asset.t → AST → ParcelOptions.t → result GenerateOutput.t);
}.

(** [CommittedAsset | UncommittedAsset]: [getAST] is what [asset.getAST()]
    resolves to. *)
Record AssetWrapper : Type := {
  value : Object Asset.t;
  options : ParcelOptions.t;
  getAST : option AST;
}.

(** What the module and its callers share: the [WeakMap] [generateResults],
    the store behind [options.cache], and two logs, of the calls of
    [_generateFromAST] and of the calls of a plugin's [generate], each
    entry the address of the asset value the call was for. *)
Record State : Type := {
  generateResults : gmap positive Promise.t;
  cache : gmap string string;
  started : list positive;
  generateCalls : list positive;
}.

(** [loadPlugin] of [./loadParcelPlugin]. *)
Class PluginLoader : Type := {
  loadPlugin :
    string → string → string → ParcelOptions.t → result Transformer;
}.
End GenerationTypes.

Section Generation.
Context `{Collaborators} `{!PluginLoader}.

(** Code that reads and writes the state and may throw. *)
Definition M (A : Type) : Type := State → result A * State.

Definition ret {A} (a : A) : M A := λ st, (Ok a, st).

Definition throw {A} (msg : string) : M A := λ st, (Throw msg, st).

Definition bind {A B} (m : M A) (k : A → M B) : M B := λ st,
  match m st with
  | (Ok a, st') => k a st'
  | (Throw msg, st') => (Throw msg, st')
  end.

Definition lift {A} (r : result A) : M A := λ st, (r, st).

Definition logGenerate (a : positive) : M unit := λ st,
  (Ok tt,
   {| generateResults := generateResults st;
      cache := cache st;
      started := started st;
      generateCalls := a :: generateCalls st |}).

(** [cache.setStream(key, blobToStream(content))], [cache.setBlob(key, b)] *)
Definition cacheSet (key bytes : string) : M unit := λ st,
  (Ok tt,
   {| generateResults := generateResults st;
      cache := <[key := bytes]> (cache st);
      started := started st;
      generateCalls := generateCalls st |}).

(** [cache.getStream(key)] *)
Definition cacheGetStream (key : string) : M Blob := λ st,
  (Ok (BlobReadable (default "" (cache st !! key))), st).
End Generation.

Declare Scope M_scope.
Delimit Scope M_scope with M.
Notation "'run' x := e 'in' k" := (bind e (λ x, k))
  (at level 10, x name, e at level 100, k at level 200) : M_scope.

Section GenerateFromAST.
Context `{Collaborators} `{!PluginLoader}.

(** The body of the async function [_generateFromAST], run to its end. *)
Definition generateBody (asset : AssetWrapper) : M GenerateOutput.t :=
  let v := fields (value asset) in
  (run ast :=
     match getAST asset with
     | Some ast => ret ast
     | None => throw "Asset has no AST"
     end in
   run pluginName := lift (nullthrows (Asset.plugin v)) in
   run configPath := lift (nullthrows (Asset.configPath v)) in
   run configKeyPath := lift (nullthrows (Asset.configKeyPath v)) in
   run plugin :=
     lift (loadPlugin pluginName configPath configKeyPath (options asset)) in
   run generate :=
     match generate plugin with
     | Some generate => ret generate
     | None => throw (pluginName +:+ " does not have a generate method")
     end in
   run _ := logGenerate (address (value asset)) in
   run output := lift (generate v ast (options asset)) in
   let mapBuffer := toBuffer <$> GenerateOutput.map output in
   run contentKey := lift (nullthrows (Asset.contentKey v)) in
   run _ := cacheSet contentKey (blobBytes (GenerateOutput.content output)) in
   run _ :=
     match mapBuffer with
     | Some mapBuffer =>
       run mapKey := lift (nullthrows (Asset.mapKey v)) in
       cacheSet mapKey mapBuffer
     | None => ret tt
     end in
   run content :=
     match GenerateOutput.content output with
     | BlobReadable _ => cacheGetStream contentKey
     | content => ret content
     end in
   ret {| GenerateOutput.content := content;
          GenerateOutput.map := GenerateOutput.map output |})%M.

(** A call of [_generateFromAST] makes a new promise, which settles the way
    the body ends; what the body does after its [await]s is counted with
    the call. *)
Definition _generateFromAST (asset : AssetWrapper) (st : State)
  : Promise.t * State :=
  let '(outcome, st') := generateBody asset st in
  ({| Promise.id := length (started st); Promise.settled := outcome |},
   {| generateResults := generateResults st';
      cache := cache st';
      started := address (value asset) :: started st';
      generateCalls := generateCalls st' |}).

Definition generateFromAST (asset : AssetWrapper) (st : State)
  : Promise.t * State :=
  match generateResults st !! address (value asset) with
  | Some output => (output, st)
  | None =>
    let '(output, st') := _generateFromAST asset st in
    (output,
     {| generateResults :=
          <[address (value asset) := output]> (generateResults st');
        cache := cache st';
        started := started st';
        generateCalls := generateCalls st' |})
  end.

(** One call of [generateFromAST] after the other. *)
Fixpoint generateAll (assets : list AssetWrapper) (st : State)
  : list Promise.t * State :=
  match assets with
  | [] => ([], st)
  | asset :: rest =>
    let '(output, st') := generateFromAST asset st in
    let '(outputs, st'') := generateAll rest st' in
    (output :: outputs, st'')
  end.

(** The state when the module has just been loaded, over a given cache. *)
Definition initialState (cache : gmap string string) : State :=
  {| generateResults := ∅;
     cache := cache;
     started := [];
     generateCalls := [] |}.

(** How often an address occurs in a log. *)
Definition occurrences (a : positive) (log : list positive) : nat :=
  length (filter (λ b, b = a) log).

(** Whether the body of [_generateFromAST] gets to call [generate]. *)
Definition reachesGenerate (asset : AssetWrapper) : bool :=
  let v := fields (value asset) in
  match getAST asset, Asset.plugin v, Asset.configPath v,
        Asset.configKeyPath v with
  | Some _, Some pluginName, Some configPath, Some configKeyPath =>
    match loadPlugin pluginName configPath configKeyPath (options asset) with
    | Ok plugin =>
      match generate plugin with
      | Some _ => true
      | None => false
      end
    | Throw _ => false
    end
  | _, _, _, _ => false
  end.

(** The first of the calls that is for the asset value at address [a]. *)
Definition firstCallFor (a : positive) (assets : list AssetWrapper)
  : option AssetWrapper :=
  head (filter (λ asset, address (value asset) = a) assets).
End GenerateFromAST.

(** ** The PostCSS transformer: [transform] *)

(** A message of a PostCSS plugin; the loop reads [file] of a
    ['dependency'], and [dir] and [glob] of a ['dir-dependency']. *)
Module Message.
Record t : Type := {
  type : string;
  file : string;
  dir : string;
  glob : option string;
}.
End Message.

Inductive FileCreateInvalidation : Type :=
| FileInvalidation (filePath : string)
| GlobInvalidation (glob : string)
| FileAboveInvalidation (fileName aboveFilePath : string).

(** The argument of [asset.addDependency] in [transform]. *)
Module DependencyOptions.
Record t : Type := {
  specifier : string;
  specifierType : string;
  loc : SourceLocation;
}.
End DependencyOptions.

(** What [postcss], [postcss-modules], [glob] of [@parcel/utils] and
    [path] do for the transformer. *)
Class PostCSS `{Collaborators} : Type := {
  Program : Type;
  Config : Type;
  (* [loadPostcss(options, asset.filePath)], which may fail to find or to
     install the package; the functions below are those of the module it
     returns *)
  loadPostcss : string → result unit;
  (* [postcss.fromJSON(ast.program)] *)
  fromJSON : AST → Program;
  (* [COMPOSES_RE.test(code)] *)
  composesTest : string → bool;
  (* the dependencies that the walk over the declarations adds *)
  walkDecls : Program → string → list DependencyOptions.t;
  (* [postcss(plugins).process(program, config.hydrated)]: the messages,
     [root.toJSON()], and the JSON that [postcss-modules] hands to
     [getJSON], if it runs *)
  process :
    Config → Program →
    result (list Message.t * AST * option (list (string * string)));
  (* [glob(pattern, fs, {onlyFiles: true})] *)
  glob : string → FileSystem → list string;
  (* [path.normalize] *)
  normalize : string → string;
  (* the source of the JS asset that exports the class names *)
  modulesCode :
    list DependencyOptions.t → list (string * string) → string;
}.

Module MutableAsset.
Section Fields.
Context `{Collaborators}.

(** Modelled from the spec: the [MutableAsset] that [transform] is handed,
    whose class is not among the sources. Its fields are what its methods
    read and write; [invalidateOnFileChange] and [invalidateOnFileCreate]
    record what they are called with, in the order of the calls. *)
Record t : Type := {
  type : string;
  filePath : string;
  fs : FileSystem;
  ast : option AST;
  isASTDirty : bool;
  code : string;
  dependencies : list DependencyOptions.t;
  symbols : option (list (string * string));
  fileChangeInvalidations : list string;
  fileCreateInvalidations : list FileCreateInvalidation;
}.

Definition setType (type' : string) (asset : t) : t :=
  {| type := type'; filePath := filePath asset; fs := fs asset;
     ast := ast asset; isASTDirty := isASTDirty asset; code := code asset;
     dependencies := dependencies asset; symbols := symbols asset;
     fileChangeInvalidations := fileChangeInvalidations asset;
     fileCreateInvalidations := fileCreateInvalidations asset |}.

Definition addDependency (dep : DependencyOptions.t) (asset : t) : t :=
  {| type := type asset; filePath := filePath asset; fs := fs asset;
     ast := ast asset; isASTDirty := isASTDirty asset; code := code asset;
     dependencies := dependencies asset ++ [dep]; symbols := symbols asset;
     fileChangeInvalidations := fileChangeInvalidations asset;
     fileCreateInvalidations := fileCreateInvalidations asset |}.

Definition setAST (ast' : AST) (asset : t) : t :=
  {| type := type asset; filePath := filePath asset; fs := fs asset;
     ast := Some ast'; isASTDirty := true; code := code asset;
     dependencies := dependencies asset; symbols := symbols asset;
     fileChangeInvalidations := fileChangeInvalidations asset;
     fileCreateInvalidations := fileCreateInvalidations asset |}.

Definition invalidateOnFileChange (file : string) (asset : t) : t :=
  {| type := type asset; filePath := filePath asset; fs := fs asset;
     ast := ast asset; isASTDirty := isASTDirty asset; code := code asset;
     dependencies := dependencies asset; symbols := symbols asset;
     fileChangeInvalidations := fileChangeInvalidations asset ++ [file];
     fileCreateInvalidations := fileCreateInvalidations asset |}.

Definition invalidateOnFileCreate (invalidation : FileCreateInvalidation)
    (asset : t) : t :=
  {| type := type asset; filePath := filePath asset; fs := fs asset;
     ast := ast asset; isASTDirty := isASTDirty asset; code := code asset;
     dependencies := dependencies asset; symbols := symbols asset;
     fileChangeInvalidations := fileChangeInvalidations asset;
     fileCreateInvalidations :=
       fileCreateInvalidations asset ++ [invalidation] |}.

(** [asset.symbols.ensure()], then one [asset.symbols.set] per entry. *)
Definition setSymbols (entries : list (string * string)) (asset : t) : t :=
  {| type := type asset; filePath := filePath asset; fs := fs asset;
     ast := ast asset; isASTDirty := isASTDirty asset; code := code asset;
     dependencies := dependencies asset;
     symbols := Some (default [] (symbols asset) ++ entries);
     fileChangeInvalidations := fileChangeInvalidations asset;
     fileCreateInvalidations := fileCreateInvalidations asset |}.
End Fields.
End MutableAsset.

(** An entry of the array that [transform] returns: the asset it was
    handed, or a new asset given by its type and content. *)
Inductive TransformerResult : Type :=
| TheAsset
| NewAsset (type content : string).

Section PostCSSTransformer.
Context `{PostCSS}.

(** [`${msg.dir}/${msg.glob ?? '**/*'}`] *)
Definition dirPattern (msg : Message.t) : string :=
  Message.dir msg +:+ "/" +:+ default "**/*" (Message.glob msg).

(** One turn of [for (let msg of messages)]. *)
Definition handleMessage (asset : MutableAsset.t) (msg : Message.t)
  : MutableAsset.t :=
  if String.eqb (Message.type msg) "dependency" then
    MutableAsset.invalidateOnFileChange (Message.file msg) asset
  else if String.eqb (Message.type msg) "dir-dependency" then
    let pattern := dirPattern msg in
    let files := glob pattern (MutableAsset.fs asset) in
    let asset :=
      foldl (λ asset file,
               MutableAsset.invalidateOnFileChange (normalize file) asset)
            asset files in
    MutableAsset.invalidateOnFileCreate (GlobInvalidation pattern) asset
  else asset.

(** [transform({asset, config, options, resolve})]: what it returns or
    throws, and the asset as it leaves it. *)
Definition transform (asset : MutableAsset.t) (config : option Config)
  : result (list TransformerResult) * MutableAsset.t :=
  let asset := MutableAsset.setType "css" asset in
  match config with
  | None => (Ok [TheAsset], asset)
  | Some config =>
    match (try _ := loadPostcss (MutableAsset.filePath asset) in
           nullthrows (MutableAsset.ast asset))%result with
    | Throw msg => (Throw msg, asset)
    | Ok ast =>
      let program := fromJSON ast in
      let code :=
        if MutableAsset.isASTDirty asset then None
        else Some (MutableAsset.code asset) in
      let asset :=
        if match code with
           | None => true
           | Some code => composesTest code
           end
        then foldl (λ asset dep, MutableAsset.addDependency dep asset) asset
                   (walkDecls program (MutableAsset.filePath asset))
        else asset in
      match process config program with
      | Throw msg => (Throw msg, asset)
      | Ok (messages, root, cssModules) =>
        let asset := MutableAsset.setAST root asset in
        let asset := foldl handleMessage asset messages in
        match cssModules with
        | None => (Ok [TheAsset], asset)
        | Some cssModules =>
          let code :=
            modulesCode (MutableAsset.dependencies asset) cssModules in
          let asset :=
            MutableAsset.setSymbols (cssModules ++ [("default", "default")])
                                    asset in
          (Ok [TheAsset; NewAsset "js" code], asset)
        end
      end
    end
  end.

(** The file changes and the file creations that one message asks to
    watch, over the file system [fs]. *)
Definition messageFileChanges (fs : FileSystem) (msg : Message.t)
  : list string :=
  if String.eqb (Message.type msg) "dependency" then [Message.file msg]
  else if String.eqb (Message.type msg) "dir-dependency" then
    normalize <$> glob (dirPattern msg) fs
  else [].

Definition messageFileCreates (msg : Message.t)
  : list FileCreateInvalidation :=
  if String.eqb (Message.type msg) "dependency" then []
  else if String.eqb (Message.type msg) "dir-dependency" then
    [GlobInvalidation (dirPattern msg)]
  else [].
End PostCSSTransformer.

(** ** Symbol resolution ([SymbolResolution], [resolveSymbol]) *)

(** [symbol: void | null | false | Symbol] *)
Inductive SymbolField : Type :=
| SymbolUndefined
| SymbolNull
| SymbolFalse
| SymbolName (name : string).

(** [SymbolResolution], with an asset given by its id. *)
Module SymbolResolution.
Record t : Type := {
  asset : string;
  exportSymbol : string;
  symbol : SymbolField;
  loc : option SourceLocation;
}.
End SymbolResolution.

(** The four ways a resolution ends. *)
Inductive Outcome : Type :=
| Resolved (binding : string)
| BailOut
| NotFound
| Skipped.

(** What [resolveSymbol] puts in the field [symbol] for each of them,
    after the comment on its declaration: a symbol when it is resolved,
    [null] for a bailout, [undefined] when the symbol is not found, [false]
    when it is skipped. *)
Definition sentinel (o : Outcome) : SymbolField :=
  match o with
  | Resolved binding => SymbolName binding
  | BailOut => SymbolNull
  | NotFound => SymbolUndefined
  | Skipped => SymbolFalse
  end.

Module SymbolGraph.

(** The table of the symbols an asset exports: cleared, when the exports
    are not known, or a map from an exported name to its local binding. *)
Inductive SymbolTable : Type :=
| Cleared
| Exports (table : gmap string string).

(** A dependency: its import table, from an imported name to the local
    name and the weak flag, the asset it resolves to, and whether it is
    marked as skipped. *)
Record DependencyNode : Type := {
  imports : gmap string (string * bool);
  resolution : option string;
  skipped : bool;
}.

Record AssetNode : Type := {
  symbols : SymbolTable;
  dependencies : list DependencyNode;
}.

Definition answer (asset exportSymbol : string) (o : Outcome)
  : SymbolResolution.t :=
  {| SymbolResolution.asset := asset;
     SymbolResolution.exportSymbol := exportSymbol;
     SymbolResolution.symbol := sentinel o;
     SymbolResolution.loc := None |}.

(** The dependencies that re-export under the name [symbol], each with the
    name to look up in the asset it resolves to: the entries of an import
    table that are weak and have [symbol] as their local name. *)
Definition reexports (node : AssetNode) (symbol : string)
  : list (DependencyNode * string) :=
  dep ← dependencies node;
  entry ← map_to_list (imports dep);
  if bool_decide (entry.2.1 = symbol) && entry.2.2 then [(dep, entry.1)]
  else [].

Section Resolve.
Context (graph : gmap string AssetNode) (boundary : option (gset string)).

(** [boundary] is given and does not hold the asset. *)
Definition outside (asset : string) : bool :=
  match boundary with
  | Some bundle => bool_decide (asset ∉ bundle)
  | None => false
  end.

(** A result that says not found for an asset within the boundary. *)
Definition notFoundInside (r : SymbolResolution.t) : bool :=
  match SymbolResolution.symbol r with
  | SymbolUndefined => negb (outside (SymbolResolution.asset r))
  | _ => false
  end.

(** A result that names an asset outside the boundary says not found. *)
Definition undefinedOutside (r : SymbolResolution.t) : Prop :=
  outside (SymbolResolution.asset r) = true →
  SymbolResolution.symbol r = SymbolUndefined.

(** Follows the re-exporting dependencies in turn, until one of them
    settles the question. *)
Fixpoint follow (recurse : string → string → option SymbolResolution.t)
    (asset symbol : string) (candidates : list (DependencyNode * string))
  : option SymbolResolution.t :=
  match candidates with
  | [] => Some (answer asset symbol NotFound)
  | (dep, imported) :: rest =>
    if skipped dep then Some (answer asset symbol Skipped)
    else
      match resolution dep with
      | None => follow recurse asset symbol rest
      | Some target =>
        match recurse target imported with
        | None => None
        | Some r =>
          if notFoundInside r then follow recurse asset symbol rest
          else Some r
        end
      end
  end.

(** Modelled from the spec: the body of [resolveSymbol], of which the
    sources hold the declaration and its comment only. Starting from
    [(asset, symbol)]: stop with not found, naming the asset reached, once
    the boundary is left; stop with not found on a pair that was visited;
    bail out when the table of the asset is cleared; resolve to the local
    binding when the table has the symbol; otherwise follow the
    dependencies that re-export under that name. [None] when [fuel] runs
    out. *)
Fixpoint resolveSymbolFrom (fuel : nat) (visited : gset (string * string))
    (asset symbol : string) : option SymbolResolution.t :=
  match fuel with
  | O => None
  | S fuel =>
    if outside asset then Some (answer asset symbol NotFound)
    else if bool_decide ((asset, symbol) ∈ visited) then
      Some (answer asset symbol NotFound)
    else
      match graph !! asset with
      | None => Some (answer asset symbol NotFound)
      | Some node =>
        match symbols node with
        | Cleared => Some (answer asset symbol BailOut)
        | Exports table =>
          match table !! symbol with
          | Some binding => Some (answer asset symbol (Resolved binding))
          | None =>
            follow (resolveSymbolFrom fuel ({[(asset, symbol)]} ∪ visited))
                   asset symbol (reexports node symbol)
          end
        end
      end
  end.

(** The pairs a resolution can recurse into: for every dependency that
    resolves to an asset, that asset with each imported name. *)
Definition queries : list (string * string) :=
  entry ← map_to_list graph;
  dep ← dependencies entry.2;
  match resolution dep with
  | Some target => (λ import, (target, import.1)) <$> map_to_list (imports dep)
  | None => []
  end.

Definition universe (asset symbol : string) : gset (string * string) :=
  list_to_set ((asset, symbol) :: queries).

(** [resolveSymbol(asset, symbol, boundary)]: with one unit of fuel for
    each pair that can be visited, and one more. *)
Definition resolveSymbol (asset symbol : string) : SymbolResolution.t :=
  default (answer asset symbol NotFound)
          (resolveSymbolFrom (S (size (universe asset symbol))) ∅
                             asset symbol).

(** The traversal of [follow] once more, together with the pairs that the
    resolution is called on along the way, in the order of the calls. *)
Fixpoint followCalls
    (recurse : string → string
               → option (SymbolResolution.t * list (string * string)))
    (asset symbol : string) (candidates : list (DependencyNode * string))
  : option (SymbolResolution.t * list (string * string)) :=
  match candidates with
  | [] => Some (answer asset symbol NotFound, [])
  | (dep, imported) :: rest =>
    if skipped dep then Some (answer asset symbol Skipped, [])
    else
      match resolution dep with
      | None => followCalls recurse asset symbol rest
      | Some target =>
        match recurse target imported with
        | None => None
        | Some (r, calls) =>
          if notFoundInside r then
            match followCalls recurse asset symbol rest with
            | Some (r', calls') => Some (r', calls ++ calls')
            | None => None
            end
          else Some (r, calls)
        end
      end
  end.

(** The traversal of [resolveSymbolFrom] once more, together with the
    pairs it is called on: the pair it starts from, and then the calls
    made while the re-exports are followed. *)
Fixpoint resolveSymbolCalls (fuel : nat) (visited : gset (string * string))
    (asset symbol : string)
  : option (SymbolResolution.t * list (string * string)) :=
  match fuel with
  | O => None
  | S fuel =>
    if outside asset then
      Some (answer asset symbol NotFound, [(asset, symbol)])
    else if bool_decide ((asset, symbol) ∈ visited) then
      Some (answer asset symbol NotFound, [(asset, symbol)])
    else
      match graph !! asset with
      | None => Some (answer asset symbol NotFound, [(asset, symbol)])
      | Some node =>
        match symbols node with
        | Cleared => Some (answer asset symbol BailOut, [(asset, symbol)])
        | Exports table =>
          match table !! symbol with
          | Some binding =>
            Some (answer asset symbol (Resolved binding), [(asset, symbol)])
          | None =>
            match followCalls
                    (resolveSymbolCalls fuel ({[(asset, symbol)]} ∪ visited))
                    asset symbol (reexports node symbol) with
            | Some (r, calls) => Some (r, (asset, symbol) :: calls)
            | None => None
            end
          end
        end
      end
  end.

(** The pairs that [resolveSymbol(asset, symbol, boundary)] is called on
    in the course of a resolution: the assets that the traversal
    reaches, each with the symbol looked up there. *)
Definition calls (asset symbol : string) : list (string * string) :=
  default []
          (snd <$> resolveSymbolCalls (S (size (universe asset symbol))) ∅
                                      asset symbol).

(** The resolution at [from] hands the question on to [to]: the asset of
    [from] is within the boundary and does not declare the symbol, and the
    first of its dependencies that re-export under that name is not
    skipped and resolves to the asset of [to], where the name is the
    symbol of [to]. *)
Definition handsOn (from to : string * string) : Prop :=
  outside from.1 = false
  ∧ ∃ node table dep rest,
      graph !! from.1 = Some node
      ∧ symbols node = Exports table
      ∧ table !! from.2 = None
      ∧ reexports node from.2 = (dep, to.2) :: rest
      ∧ skipped dep = false
      ∧ resolution dep = Some to.1.

(** A chain of re-exports from [start] through the pairs of [path], in
    their order, to [final]. *)
Fixpoint leadsTo (start : string * string) (path : list (string * string))
    (final : string * string) : Prop :=
  match path with
  | [] => handsOn start final
  | next :: path' => handsOn start next ∧ leadsTo next path' final
  end.
End Resolve.
End SymbolGraph.

(** ** What one invalidation contributes, as pure functions *)

Section InvalidationSpec.
Context `{Collaborators}.

Definition knownType (invalidation : RequestInvalidation.t) : Prop :=
  RequestInvalidation.type invalidation = "file"
  ∨ RequestInvalidation.type invalidation = "env"
  ∨ RequestInvalidation.type invalidation = "option".

(** The id of an invalidation of a known type. *)
Definition invalidationId (invalidation : RequestInvalidation.t) : string :=
  default "" (returned (getInvalidationId invalidation)).

(** The promise that the loop awaits for a file path: the one that
    [hashCache] holds, or else the one that [hashFile] returns. *)
Definition fileHash (fs : FileSystem) (hashCache : HashCache) (path : string)
  : result string :=
  default (hashFile fs path) (hashCache !! path).

(** What the loop appends to [hashes] for an invalidation of a known type,
    when the loop started from [hashCache], or the error that it throws
    there. *)
Definition contribution (options : ParcelOptions.t)
    (hashCache : HashCache) (invalidation : RequestInvalidation.t)
  : result string :=
  if String.eqb (RequestInvalidation.type invalidation) "file" then
    fileHash (ParcelOptions.inputFS options) hashCache
             (RequestInvalidation.filePath invalidation)
  else if String.eqb (RequestInvalidation.type invalidation) "env" then
    Ok (RequestInvalidation.key invalidation +:+ ":"
          +:+ default ""
                (ParcelOptions.env options
                   !! RequestInvalidation.key invalidation))
  else
    Ok (RequestInvalidation.key invalidation +:+ ":"
          +:+ hashFromOption
                (ParcelOptions.get options
                   (RequestInvalidation.key invalidation))).

Definition unknownTypeError (invalidation : RequestInvalidation.t) : string :=
  "Unknown invalidation type: " +:+ RequestInvalidation.type invalidation.

(** Sorted by id: every element's id is at most the ids after it. *)
Definition sortedById (s : list RequestInvalidation.t) : Prop :=
  StronglySorted String.le (invalidationId <$> s).

(** The strings of a list, one after the other. *)
Definition concatenated (l : list string) : string :=
  foldr String.append "" l.

(** The contributions of a list one after the other, up to the first one
    that is an error. *)
Definition joined (parts : list (result string)) : result string :=
  foldr (λ part rest,
           (try x := part in try y := rest in Ok (x +:+ y))%result)
        (Ok "") parts.

(** The paths of the ['file'] entries of a list of invalidations. *)
Definition filePaths (invalidations : list RequestInvalidation.t)
  : list string :=
  RequestInvalidation.filePath
    <$> filter (λ i, RequestInvalidation.type i = "file") invalidations.

(** [hashCache'] is [hashCache] with, for some of the [paths] that it did
    not hold, the promise of [hashFile] added. *)
Definition gains (fs : FileSystem) (paths : list string)
    (hashCache hashCache' : HashCache) : Prop :=
  ∀ path,
    hashCache' !! path = hashCache !! path
    ∨ (hashCache !! path = None
       ∧ path ∈ paths
       ∧ hashCache' !! path = Some (hashFile fs path)).

(** The hash cache after the files of [invalidations] have been looked up
    in it, over the file system [fs]: what it held stays, and each of the
    paths that it did not hold gets the promise of [hashFile]. *)
Definition cachedAfter (fs : FileSystem)
    (invalidations : list RequestInvalidation.t)
    (hashCache : HashCache) (path : string) : option (result string) :=
  match hashCache !! path with
  | Some promise => Some promise
  | None =>
    if bool_decide (path ∈ filePaths invalidations)
    then Some (hashFile fs path)
    else None
  end.
End InvalidationSpec.

(** ** Sample collaborators and inputs *)

Module Sample.

Definition renderEntries (entries : list (string * string)) : string :=
  concatenated ((λ entry, entry.1 +:+ "=" +:+ entry.2 +:+ ";") <$> entries).

(** Collaborators that can be run: the hashes are the identity, a file
    system is a map from paths to contents, where hashing a file that is
    not there fails, and an option is hashed by writing it out. *)
Definition collaborators : Collaborators :=
  {| FileSystem := gmap string string;
     Mixed := string;
     Environment := string;
     Dependency := string;
     JSONValue := string;
     AST := string;
     SourceMap := string;
     hashString := λ s, s;
     hashFile := λ fs path,
       match fs !! path with
       | Some content => Ok content
       | None => Throw ("ENOENT: no such file or directory, open " +:+ path)
       end;
     hashFromOption := λ value,
       match value with
       | None => "undefined"
       | Some (inr text) => text
       | Some (inl (inr _)) => "[object Object]"
       | Some (inl (inl env)) => renderEntries (map_to_list env)
       end;
     environmentId := λ env, env;
     objectSortedEntries := λ query,
       merge_sort (λ x y, String.le x.1 y.1) (map_to_list query);
     JSON_stringify := renderEntries;
     BundleBehaviorMap := λ behavior,
       match behavior with
       | inline => 0%Z
       | isolated => 1%Z
       end;
     toBuffer := λ map, map |}.

#[local] Existing Instance collaborators.

Definition parcelOptions : ParcelOptions.t :=
  {| ParcelOptions.inputFS := {["a.css" := "body{}"]};
     ParcelOptions.env := ∅;
     ParcelOptions.otherOptions := {["mode" := "production"]} |}.

Definition fileA : RequestInvalidation.t :=
  {| RequestInvalidation.type := "file";
     RequestInvalidation.filePath := "a.css";
     RequestInvalidation.key := "" |}.

Definition envK : RequestInvalidation.t :=
  {| RequestInvalidation.type := "env";
     RequestInvalidation.filePath := "";
     RequestInvalidation.key := "K" |}.

Definition optionEnv : RequestInvalidation.t :=
  {| RequestInvalidation.type := "option";
     RequestInvalidation.filePath := "";
     RequestInvalidation.key := "env" |}.

Definition optionMode : RequestInvalidation.t :=
  {| RequestInvalidation.type := "option";
     RequestInvalidation.filePath := "";
     RequestInvalidation.key := "mode" |}.

Definition globEntry : RequestInvalidation.t :=
  {| RequestInvalidation.type := "glob";
     RequestInvalidation.filePath := "";
     RequestInvalidation.key := "" |}.

Definition assetOptions : AssetOptions.t :=
  {| AssetOptions.id := None; AssetOptions.committed := None;
     AssetOptions.hash := None; AssetOptions.idBase := None;
     AssetOptions.filePath := "a.css"; AssetOptions.query := None;
     AssetOptions.type := "css"; AssetOptions.contentKey := Some "content";
     AssetOptions.mapKey := Some "map"; AssetOptions.astKey := None;
     AssetOptions.astGenerator := None; AssetOptions.dependencies := None;
     AssetOptions.bundleBehavior := None;
     AssetOptions.isBundleSplittable := None; AssetOptions.isSource := true;
     AssetOptions.env := "browser"; AssetOptions.meta := None;
     AssetOptions.outputHash := None; AssetOptions.pipeline := None;
     AssetOptions.stats := {| Stats.time := 0; Stats.size := 6 |};
     AssetOptions.symbols := None; AssetOptions.sideEffects := None;
     AssetOptions.uniqueKey := None;
     AssetOptions.plugin := Some "@parcel/transformer-postcss";
     AssetOptions.configPath := Some ".parcelrc";
     AssetOptions.configKeyPath := Some "transformers" |}.

(** Other options for the same identity: the base path is given by
    [idBase], and the fields that the identity does not read differ. *)
Definition assetOptionsMoved : AssetOptions.t :=
  {| AssetOptions.id := None; AssetOptions.committed := Some true;
     AssetOptions.hash := Some "0123"; AssetOptions.idBase := Some "a.css";
     AssetOptions.filePath := "dist/b.css"; AssetOptions.query := None;
     AssetOptions.type := "css"; AssetOptions.contentKey := None;
     AssetOptions.mapKey := None; AssetOptions.astKey := None;
     AssetOptions.astGenerator := None; AssetOptions.dependencies := None;
     AssetOptions.bundleBehavior := Some isolated;
     AssetOptions.isBundleSplittable := Some false;
     AssetOptions.isSource := false;
     AssetOptions.env := "browser"; AssetOptions.meta := None;
     AssetOptions.outputHash := None; AssetOptions.pipeline := None;
     AssetOptions.stats := {| Stats.time := 7; Stats.size := 60 |};
     AssetOptions.symbols := None; AssetOptions.sideEffects := Some false;
     AssetOptions.uniqueKey := None;
     AssetOptions.plugin := None;
     AssetOptions.configPath := None;
     AssetOptions.configKeyPath := None |}.

(** A plugin whose [generate] prints the AST. *)
Definition pluginLoader : PluginLoader :=
  {| loadPlugin := λ _ _ _ _,
       Ok {| generate := Some (λ _ ast _,
               Ok {| GenerateOutput.content := BlobString ast;
                     GenerateOutput.map := None |}) |} |}.

#[local] Existing Instance pluginLoader.

(** Two wrappers of one asset value: one with an AST, one without. *)
Definition withAST : AssetWrapper :=
  {| value := {| address := 1; fields := createAsset assetOptions |};
     options := parcelOptions;
     getAST := Some "body{}" |}.

Definition withoutAST : AssetWrapper :=
  {| value := {| address := 1; fields := createAsset assetOptions |};
     options := parcelOptions;
     getAST := None |}.

(** PostCSS with one plugin that reports an import and a directory. *)
Definition importMessage : Message.t :=
  {| Message.type := "dependency"; Message.file := "src/vars.css";
     Message.dir := ""; Message.glob := None |}.

Definition dirMessage : Message.t :=
  {| Message.type := "dir-dependency"; Message.file := "";
     Message.dir := "src/icons"; Message.glob := None |}.

Definition postcss : PostCSS :=
  {| Program := string;
     Config := unit;
     loadPostcss := λ _, Ok tt;
     fromJSON := λ ast, ast;
     composesTest := λ _, false;
     walkDecls := λ _ _, [];
     process := λ _ program, Ok ([importMessage; dirMessage], program, None);
     glob := λ pattern _,
       if String.eqb pattern "src/icons/**/*"
       then ["src/icons/./a.svg"; "src/icons/b.svg"]
       else [];
     normalize := λ file,
       if String.eqb file "src/icons/./a.svg" then "src/icons/a.svg"
       else file;
     modulesCode := λ _ _, "" |}.

Definition mutableAsset : MutableAsset.t :=
  {| MutableAsset.type := "pcss";
     MutableAsset.filePath := "src/a.pcss";
     MutableAsset.fs := ∅;
     MutableAsset.ast := Some "a{}";
     MutableAsset.isASTDirty := false;
     MutableAsset.code := "a{}";
     MutableAsset.dependencies := [];
     MutableAsset.symbols := None;
     MutableAsset.fileChangeInvalidations := [];
     MutableAsset.fileCreateInvalidations := [] |}.

(** [mutableAsset] as [transform] leaves it. *)
Definition transformedAsset : MutableAsset.t :=
  {| MutableAsset.type := "css";
     MutableAsset.filePath := "src/a.pcss";
     MutableAsset.fs := ∅;
     MutableAsset.ast := Some "a{}";
     MutableAsset.isASTDirty := true;
     MutableAsset.code := "a{}";
     MutableAsset.dependencies := [];
     MutableAsset.symbols := None;
     MutableAsset.fileChangeInvalidations :=
       ["src/vars.css"; "src/icons/a.svg"; "src/icons/b.svg"];
     MutableAsset.fileCreateInvalidations :=
       [GlobInvalidation "src/icons/**/*"] |}.

(** [A] re-exports [x] from [B], which declares it. *)
Definition symbolGraph : gmap string SymbolGraph.AssetNode :=
  {[ "A" :=
       {| SymbolGraph.symbols := SymbolGraph.Exports ∅;
          SymbolGraph.dependencies :=
            [ {| SymbolGraph.imports := {[ "x" := ("x", true) ]};
                 SymbolGraph.resolution := Some "B";
                 SymbolGraph.skipped := false |} ] |};
     "B" :=
       {| SymbolGraph.symbols := SymbolGraph.Exports {[ "x" := "x$B" ]};
          SymbolGraph.dependencies := [] |} ]}.

(** A bundle that holds [A] alone. *)
Definition bundle : gset string := {["A"]}.

(** A chain of three assets: [A] re-exports [x] from the [y] of [B], which
    re-exports it from the [z] of [C]. *)
Definition symbolChain : gmap string SymbolGraph.AssetNode :=
  {[ "A" :=
       {| SymbolGraph.symbols := SymbolGraph.Exports ∅;
          SymbolGraph.dependencies :=
            [ {| SymbolGraph.imports := {[ "y" := ("x", true) ]};
                 SymbolGraph.resolution := Some "B";
                 SymbolGraph.skipped := false |} ] |};
     "B" :=
       {| SymbolGraph.symbols := SymbolGraph.Exports ∅;
          SymbolGraph.dependencies :=
            [ {| SymbolGraph.imports := {[ "z" := ("y", true) ]};
                 SymbolGraph.resolution := Some "C";
                 SymbolGraph.skipped := false |} ] |};
     "C" :=
       {| SymbolGraph.symbols := SymbolGraph.Exports {[ "z" := "z$C" ]};
          SymbolGraph.dependencies := [] |} ]}.

(** A bundle that holds [A] and [B]. *)
Definition bundleAB : gset string := {["A"; "B"]}.

(** The file invalidation of [fileA] again, with a key that is not read. *)
Definition fileAKeyed : RequestInvalidation.t :=
  {| RequestInvalidation.type := "file";
     RequestInvalidation.filePath := "a.css";
     RequestInvalidation.key := "K" |}.

(** Other options: the file has changed, a variable that no entry names
    is set, and so is another option. *)
Definition parcelOptionsChanged : ParcelOptions.t :=
  {| ParcelOptions.inputFS := {["a.css" := "h1{}"]};
     ParcelOptions.env := {["OTHER" := "1"]};
     ParcelOptions.otherOptions :=
       {["mode" := "production"; "logLevel" := "verbose"]} |}.

(** A plugin whose [generate] streams the AST and gives a map. *)
Definition streamed (ast : string) : GenerateOutput.t :=
  {| GenerateOutput.content := BlobReadable ast;
     GenerateOutput.map := Some "mappings" |}.

Definition streamingPlugin : Transformer :=
  {| generate := Some (λ _ ast _, Ok (streamed ast)) |}.

Definition streamingLoader : PluginLoader :=
  {| loadPlugin := λ _ _ _ _, Ok streamingPlugin |}.

(** An output that is the given code, as a string and without a map. *)
Definition printed (code : string) : GenerateOutput.t :=
  {| GenerateOutput.content := BlobString code;
     GenerateOutput.map := None |}.

(** A hash cache that holds the file of [fileA]. *)
Definition warmCache : gmap string (result string) :=
  {["a.css" := Ok "body{}"]}.

(** A file invalidation for a file that the sample file system lacks. *)
Definition fileMissing : RequestInvalidation.t :=
  {| RequestInvalidation.type := "file";
     RequestInvalidation.filePath := "gone.css";
     RequestInvalidation.key := "" |}.
End Sample.

(** ** The PostCSS transformer: its other methods, and its loader *)

(** What [semver], [postcss], [path], the file system and
    [css-modules-loader-core] do for them, and the constant
    [POSTCSS_RANGE] of [./constants]. *)
Class PostCSSTools `{PostCSS} : Type := {
  ProgramJSON : Type;
  ExportTokens : Type;
  POSTCSS_RANGE : string;
  (* [semver.satisfies(version, range)] *)
  satisfies : string → string → bool;
  (* [postcss.parse(code, {from}).toJSON()] *)
  parseToJSON : string → string → result ProgramJSON;
  (* what [postcss.stringify(root, builder)] hands to [builder], joined *)
  stringify : Program → string;
  (* [path.relative(from, to)] *)
  relative : string → string → string;
  (* [path.dirname(p)], [path.resolve(from, to)], [path.resolve('/')] *)
  dirname : string → string;
  pathResolve : string → string → string;
  rootPath : string;
  (* [resolve(from, to)], the resolver handed to [transform] *)
  resolveSpecifier : string → string → result string;
  (* [asset.fs.readFile(path, 'utf-8')] *)
  readFile : FileSystem → string → result string;
  (* [this.core.load(source, path, undefined, this.fetch.bind(this))] *)
  coreLoad : string → string → result ExportTokens;
}.

(** The AST that [parse] makes and [canReuseAST] looks at. *)
Module CssAST.
Section Fields.
Context `{PostCSSTools}.

Record t : Type := {
  type : string;
  version : string;
  program : ProgramJSON;
}.
End Fields.
End CssAST.

Module CssTransformer.
Section Methods.
Context `{PostCSSTools}.

Definition canReuseAST (ast : CssAST.t) : bool :=
  String.eqb (CssAST.type ast) "postcss"
  && satisfies (CssAST.version ast) POSTCSS_RANGE.

(** [parse({asset, config, options})], for an asset with the given file
    path and code: [None] is [undefined]. *)
Definition parse (filePath code : string) (config : option Config)
  : result (option CssAST.t) :=
  match config with
  | None => Ok None
  | Some _ =>
    (try _ := loadPostcss filePath in
     try program := parseToJSON code filePath in
     Ok (Some {| CssAST.type := "postcss";
                 CssAST.version := "8.2.1";
                 CssAST.program := program |}))%result
  end.

(** [generate({asset, ast, options})], for an asset with the given file
    path. *)
Definition generate (filePath : string) (ast : AST)
  : result GenerateOutput.t :=
  (try _ := loadPostcss filePath in
   let code := "" +:+ stringify (fromJSON ast) in
   Ok {| GenerateOutput.content := BlobString code;
         GenerateOutput.map := None |})%result.

(** The [generateScopedName] that [transform] hands to [postcss-modules]:
    [`_${name}_${hashString(path.relative(projectRoot, filename))
    .substr(0, 6)}`]. *)
Definition generateScopedName (projectRoot name filename : string)
  : string :=
  "_" +:+ name +:+ "_"
    +:+ String.substring 0 6 (hashString (relative projectRoot filename)).
End Methods.
End CssTransformer.

(** [ParcelFileSystemLoader], the loader that [createLoader] makes. *)
Module ParcelFileSystemLoader.

(** One of the two quotes of [/^["']|["']$/g]: the double quote, which
    has code 34, and the single quote, which has code 39. *)
Definition isQuote (c : Ascii.ascii) : bool :=
  Ascii.eqb c (Ascii.ascii_of_nat 34) || Ascii.eqb c (Ascii.ascii_of_nat 39).

Definition dropFirstQuote (s : string) : string :=
  match s with
  | String c rest => if isQuote c then rest else s
  | EmptyString => s
  end.

Fixpoint dropLastQuote (s : string) : string :=
  match s with
  | EmptyString => s
  | String c EmptyString => if isQuote c then EmptyString else s
  | String c rest => String c (dropLastQuote rest)
  end.

(** [composesPath.replace(/^["']|["']$/g, '')]: a quote at the start goes,
    and so does a quote at the end. *)
Definition stripQuotes (composesPath : string) : string :=
  dropLastQuote (dropFirstQuote composesPath).

(** [s.substr(n)] *)
Fixpoint substr (n : nat) (s : string) : string :=
  match n, s with
  | O, _ => s
  | S n', String _ rest => substr n' rest
  | S _, EmptyString => s
  end.

Section Fetch.
Context `{PostCSSTools}.

(** The path that [fetch] hands to [core.load] for an absolute path. *)
Definition withoutRoot (rootRelativePath : string) : string :=
  if String.prefix rootPath rootRelativePath
  then substr (String.length rootPath) rootRelativePath
  else rootRelativePath.

(** [fetch(composesPath, relativeTo)], over the file system of the asset. *)
Definition fetch (fs : FileSystem) (composesPath relativeTo : string)
  : result ExportTokens :=
  let importPath := stripQuotes composesPath in
  (try resolved := resolveSpecifier relativeTo importPath in
   let rootRelativePath := pathResolve (dirname relativeTo) resolved in
   let rootRelativePath := withoutRoot rootRelativePath in
   try source := readFile fs resolved in
   coreLoad source rootRelativePath)%result.
End Fetch.
End ParcelFileSystemLoader.

Section TransformNotions.
Context `{Collaborators}.

(** [asset'] is [asset] after some calls of its methods that neither move
    it nor take back what it has recorded: the same type, path, file
    system and code, and the dependencies and the invalidations of [asset]
    followed by new ones. *)
Definition extends (asset asset' : MutableAsset.t) : Prop :=
  MutableAsset.type asset' = MutableAsset.type asset
  ∧ MutableAsset.filePath asset' = MutableAsset.filePath asset
  ∧ MutableAsset.fs asset' = MutableAsset.fs asset
  ∧ MutableAsset.code asset' = MutableAsset.code asset
  ∧ (∃ added,
       MutableAsset.dependencies asset'
       = MutableAsset.dependencies asset ++ added)
  ∧ (∃ added,
       MutableAsset.fileChangeInvalidations asset'
       = MutableAsset.fileChangeInvalidations asset ++ added)
  ∧ (∃ added,
       MutableAsset.fileCreateInvalidations asset'
       = MutableAsset.fileCreateInvalidations asset ++ added).
End TransformNotions.

(** ** Sample tools for the other methods of the transformer *)

Module SampleTools.
#[local] Existing Instance Sample.collaborators.
#[local] Existing Instance Sample.postcss.

(** Tools that can be run: a range that admits what it names, a parser
    and a printer that keep the code, paths that are absolute already, a
    resolver that looks below [/project/], and a loader that answers with
    the path and the source it is handed. *)
Definition tools : @PostCSSTools Sample.collaborators Sample.postcss :=
  {| ProgramJSON := string;
     ExportTokens := string;
     POSTCSS_RANGE := "^8.2.1";
     satisfies := λ version range, String.eqb ("^" +:+ version) range;
     parseToJSON := λ code _, Ok code;
     stringify := λ program, program;
     relative := λ _ to, to;
     dirname := λ _, "/project/src";
     pathResolve := λ _ to, to;
     rootPath := "/";
     resolveSpecifier := λ _ to, Ok ("/project/" +:+ to);
     readFile := λ fs path,
       match fs !! path with
       | Some source => Ok source
       | None => Throw "ENOENT"
       end;
     coreLoad := λ source path, Ok (path +:+ ":" +:+ source) |}.

(** The plugin that is the PostCSS transformer. *)
Definition postcssPlugin : Transformer :=
  {| generate := Some (λ v ast _,
       @CssTransformer.generate Sample.collaborators Sample.postcss tools
         (Asset.filePath v) ast) |}.

Definition postcssLoader : PluginLoader :=
  {| loadPlugin := λ _ _ _ _, Ok postcssPlugin |}.
End SampleTools.

(** * Properties *)

Section InvalidationFacts.
Context `{Collaborators}.
Implicit Types (a b i : RequestInvalidation.t).
Implicit Types (l s : list RequestInvalidation.t).
Implicit Types (cache : gmap string (result string)).
Implicit Types (options : ParcelOptions.t).

Lemma ltb_le x y : String.ltb x y = true → String.le x y.
Proof.
  unfold String.le, String.leb, String.ltb.
  by destruct (String.compare x y).
Qed.

Lemma not_ltb_le x y : String.ltb x y = false → String.le y x.
Proof.
  unfold String.le, String.leb, String.ltb.
  rewrite (String.compare_antisym y x).
  by destruct (String.compare x y).
Qed.

Lemma knownType_dec i : Decision (knownType i).
Proof. unfold knownType. apply _. Qed.

Lemma getInvalidationId_known i :
  knownType i → getInvalidationId i = Ok (invalidationId i).
Proof.
  unfold invalidationId, getInvalidationId.
  intros [Ht | [Ht | Ht]]; rewrite Ht; reflexivity.
Qed.

Lemma getInvalidationId_unknown i :
  ¬ knownType i → getInvalidationId i = Throw (unknownTypeError i).
Proof.
  unfold knownType, getInvalidationId, unknownTypeError. intros Hn.
  destruct (String.eqb_spec (RequestInvalidation.type i) "file"); [tauto |].
  destruct (String.eqb_spec (RequestInvalidation.type i) "env"); [tauto |].
  destruct (String.eqb_spec (RequestInvalidation.type i) "option"); [tauto |].
  reflexivity.
Qed.

Lemma getInvalidationId_Throw i msg :
  getInvalidationId i = Throw msg → ¬ knownType i ∧ msg = unknownTypeError i.
Proof.
  destruct (knownType_dec i) as [Hk | Hk].
  - rewrite getInvalidationId_known by done. discriminate.
  - rewrite getInvalidationId_unknown by done. by intros [= <-].
Qed.

(** Two invalidations of known types with one id get one contribution. *)
Lemma contribution_id options cache a b :
  knownType a → knownType b → invalidationId a = invalidationId b →
  contribution options cache a = contribution options cache b.
Proof.
  unfold invalidationId, getInvalidationId, contribution, fileHash.
  intros [Ha | [Ha | Ha]] [Hb | [Hb | Hb]]; rewrite Ha, Hb; simpl;
    intros Hid; try discriminate Hid;
    simplify_eq; congruence.
Qed.

Lemma append_cons c (x y : string) : String c x +:+ y = String c (x +:+ y).
Proof. reflexivity. Qed.

Lemma append_assoc (x y z : string) : (x +:+ y) +:+ z = x +:+ (y +:+ z).
Proof.
  induction x as [| c x IH]; [done |]. by rewrite !append_cons, IH.
Qed.

Lemma append_nil_r (x : string) : x +:+ "" = x.
Proof. induction x as [| c x IH]; [done |]. by rewrite append_cons, IH. Qed.

(** *** The sort *)

Lemma sortInsert_perm {A} (comparefn : A → A → result Z) x (l r : list A) :
  sortInsert comparefn x l = Ok r → r ≡ₚ x :: l.
Proof.
  revert r. induction l as [| y l IH]; simpl; intros r.
  - by intros [= <-].
  - destruct (comparefn x y) as [c |]; simpl; [| done].
    destruct (c <? 0)%Z; [by intros [= <-] |].
    destruct (sortInsert comparefn x l) as [r' |]; simpl; [| done].
    intros [= <-]. rewrite (IH r' eq_refl). apply perm_swap.
Qed.

Lemma sort_perm {A} (comparefn : A → A → result Z) (l s : list A) :
  sort comparefn l = Ok s → s ≡ₚ l.
Proof.
  revert s. induction l as [| x l IH]; simpl; intros s.
  - by intros [= <-].
  - destruct (sort comparefn l) as [s' |]; simpl; [| done].
    intros Hins%sortInsert_perm. by rewrite Hins, (IH s' eq_refl).
Qed.

Lemma compareInvalidations_known a b :
  knownType a → knownType b →
  compareInvalidations a b
  = Ok (if String.ltb (invalidationId a) (invalidationId b)
        then (-1)%Z else 1%Z).
Proof.
  intros Ha Hb. unfold compareInvalidations.
  by rewrite !getInvalidationId_known.
Qed.

Lemma compareInvalidations_Throw a b msg :
  compareInvalidations a b = Throw msg →
  ∃ i, (i = a ∨ i = b) ∧ ¬ knownType i ∧ msg = unknownTypeError i.
Proof.
  unfold compareInvalidations.
  destruct (getInvalidationId a) as [ida |] eqn:Ea; simpl.
  - destruct (getInvalidationId b) as [idb |] eqn:Eb; simpl; [done |].
    intros [= <-]. apply getInvalidationId_Throw in Eb as [Hb ->].
    exists b. by split; [right |].
  - intros [= <-]. apply getInvalidationId_Throw in Ea as [Ha ->].
    exists a. by split; [left |].
Qed.

Lemma sortInsert_known x s :
  knownType x → Forall knownType s → sortedById s →
  ∃ r, sortInsert compareInvalidations x s = Ok r ∧ sortedById r.
Proof.
  intros Hx. unfold sortedById.
  induction s as [| y s IH]; simpl; intros Hs Hsorted.
  - eexists; split; [done |]. repeat constructor.
  - apply Forall_cons in Hs as [Hy Hs].
    apply StronglySorted_inv in Hsorted as [Hsorted Hall].
    rewrite compareInvalidations_known by done. simpl.
    destruct (String.ltb (invalidationId x) (invalidationId y)) eqn:Hlt; simpl.
    + eexists; split; [done |]. simpl.
      apply ltb_le in Hlt.
      constructor; [by constructor |].
      constructor; [done |].
      eapply Forall_impl; [exact Hall |]. intros z Hz. by etrans.
    + destruct (IH Hs Hsorted) as (r & Hr & Hsr). rewrite Hr. simpl.
      eexists; split; [done |]. simpl.
      constructor; [done |].
      apply sortInsert_perm in Hr.
      rewrite Hr. simpl. constructor; [by apply not_ltb_le | done].
Qed.

Lemma sort_known l :
  Forall knownType l →
  ∃ s, sort compareInvalidations l = Ok s ∧ s ≡ₚ l ∧ sortedById s.
Proof.
  induction l as [| x l IH]; simpl; intros Hl.
  - exists []. repeat split; [done |]. constructor.
  - apply Forall_cons in Hl as [Hx Hl].
    destruct (IH Hl) as (s & Hs & Hperm & Hsorted). rewrite Hs. simpl.
    destruct (sortInsert_known x s Hx) as (r & Hr & Hsr);
      [by rewrite Hperm | done |].
    exists r. repeat split; [done | | done].
    apply sortInsert_perm in Hr. by rewrite Hr, Hperm.
Qed.

Lemma sortInsert_Throw x s msg :
  sortInsert compareInvalidations x s = Throw msg →
  ∃ i, i ∈ x :: s ∧ ¬ knownType i ∧ msg = unknownTypeError i.
Proof.
  induction s as [| y s IH]; simpl; [done |].
  destruct (compareInvalidations x y) as [c |] eqn:Ec; simpl.
  - destruct (c <? 0)%Z; [done |].
    destruct (sortInsert compareInvalidations x s) as [r |]; simpl; [done |].
    intros [= <-]. destruct (IH eq_refl) as (i & Hi & ?).
    exists i. split; [| done].
    apply elem_of_cons in Hi as [-> | Hi]; [left | do 2 right]; done.
  - intros [= <-]. apply compareInvalidations_Throw in Ec as (i & Hi & ?).
    exists i. split; [| done]. destruct Hi as [-> | ->]; [left | right; left].
Qed.

Lemma sort_Throw l msg :
  sort compareInvalidations l = Throw msg →
  ∃ i, i ∈ l ∧ ¬ knownType i ∧ msg = unknownTypeError i.
Proof.
  revert msg. induction l as [| x l IH]; simpl; intros msg; [done |].
  destruct (sort compareInvalidations l) as [s |] eqn:Es; simpl.
  - intros (i & Hi & ?)%sortInsert_Throw. exists i. split; [| done].
    apply sort_perm in Es. rewrite <- Es. done.
  - intros [= <-]. destruct (IH _ eq_refl) as (i & Hi & ?).
    exists i. split; [by right | done].
Qed.

Lemma compareInvalidations_Ok a b c :
  compareInvalidations a b = Ok c → knownType a ∧ knownType b.
Proof.
  unfold compareInvalidations. intros Hc.
  destruct (knownType_dec a) as [Ha | Ha];
    [| by rewrite (getInvalidationId_unknown a Ha) in Hc].
  destruct (knownType_dec b) as [Hb | Hb]; [done |].
  rewrite (getInvalidationId_known a Ha) in Hc. simpl in Hc.
  by rewrite (getInvalidationId_unknown b Hb) in Hc.
Qed.

Lemma sortInsert_Ok_known x y s r :
  sortInsert compareInvalidations x (y :: s) = Ok r →
  knownType x ∧ knownType y.
Proof.
  simpl. destruct (compareInvalidations x y) as [c |] eqn:Ec; [| done].
  intros _. by apply compareInvalidations_Ok in Ec.
Qed.

(** A sort of two entries or more that returns has compared every entry,
    so that every entry has a known type. *)
Lemma sort_Ok_known l s :
  sort compareInvalidations l = Ok s → (2 ≤ List.length l)%nat →
  Forall knownType l.
Proof.
  revert s. induction l as [| x l IH]; intros s; simpl; [lia |].
  destruct (sort compareInvalidations l) as [s' |] eqn:Es; simpl; [| done].
  intros Hins Hlen.
  assert (s' ≡ₚ l) as Hperm by (by apply sort_perm in Es).
  destruct s' as [| y s'].
  { apply Permutation_nil in Hperm. subst l. simpl in Hlen. lia. }
  apply sortInsert_Ok_known in Hins as [Hx Hy].
  constructor; [done |].
  destruct l as [| z [| z' l]].
  - by apply Permutation_nil_r in Hperm.
  - apply Permutation_singleton_r in Hperm. by simplify_eq; constructor.
  - apply (IH _ eq_refl). simpl. lia.
Qed.

(** *** The paths of the file entries, and what a cache gains *)

Lemma filePaths_cons i l :
  filePaths (i :: l)
  = if String.eqb (RequestInvalidation.type i) "file"
    then RequestInvalidation.filePath i :: filePaths l
    else filePaths l.
Proof.
  unfold filePaths. rewrite filter_cons.
  destruct (String.eqb_spec (RequestInvalidation.type i) "file") as [Hi | Hi].
  - by rewrite decide_True.
  - by rewrite decide_False.
Qed.

Lemma filePaths_app l s : filePaths (l ++ s) = filePaths l ++ filePaths s.
Proof. unfold filePaths. by rewrite filter_app, fmap_app. Qed.

Lemma filePaths_perm l s : s ≡ₚ l → ∀ p, p ∈ filePaths s ↔ p ∈ filePaths l.
Proof. intros Hperm p. unfold filePaths. by rewrite Hperm. Qed.

Lemma elem_of_filePaths p l :
  p ∈ filePaths l
  ↔ ∃ i, i ∈ l ∧ RequestInvalidation.type i = "file"
         ∧ RequestInvalidation.filePath i = p.
Proof.
  unfold filePaths. rewrite list_elem_of_fmap. split.
  - intros (i & -> & Hi). apply list_elem_of_filter in Hi as [Ht Hi].
    by exists i.
  - intros (i & Hi & Ht & <-). exists i. split; [done |].
    by apply list_elem_of_filter.
Qed.

Lemma gains_refl (fs : FileSystem) paths cache : gains fs paths cache cache.
Proof. intros p. by left. Qed.

Lemma gains_fileHash (fs : FileSystem) paths cache cache' :
  gains fs paths cache cache' →
  ∀ p, fileHash fs cache' p = fileHash fs cache p.
Proof.
  intros Hg p. unfold fileHash.
  by destruct (Hg p) as [-> | (-> & _ & ->)].
Qed.

Lemma gains_lookup (fs : FileSystem) paths cache cache' p promise :
  gains fs paths cache cache' →
  cache !! p = Some promise → cache' !! p = Some promise.
Proof. intros Hg Hp. destruct (Hg p) as [-> | (Hn & _)]; congruence. Qed.

Lemma gains_trans (fs : FileSystem) paths1 paths2 cache1 cache2 cache3 :
  gains fs paths1 cache1 cache2 → gains fs paths2 cache2 cache3 →
  gains fs (paths1 ++ paths2) cache1 cache3.
Proof.
  intros H12 H23 p.
  destruct (H23 p) as [E23 | (E2 & Hin & E3)].
  - rewrite E23. destruct (H12 p) as [E12 | (E1 & Hin & E2)]; [by left |].
    right. split; [done |]. split; [| done]. apply elem_of_app. by left.
  - right. destruct (H12 p) as [E12 | (E1 & _ & E2')]; [| congruence].
    split; [congruence |]. split; [| done]. apply elem_of_app. by right.
Qed.

Lemma gains_paths (fs : FileSystem) paths paths' cache cache' :
  (∀ p, p ∈ paths → p ∈ paths') →
  gains fs paths cache cache' → gains fs paths' cache cache'.
Proof.
  intros Hsub Hg p. destruct (Hg p) as [E | (E & Hin & E')]; [by left |].
  right. split; [done |]. split; [by apply Hsub | done].
Qed.

(** A path that a cache holds is awaited as the cache holds it. *)
Lemma lookup_fileHash (fs : FileSystem) cache p :
  is_Some (cache !! p) → cache !! p = Some (fileHash fs cache p).
Proof. unfold fileHash. by intros [promise ->]. Qed.

(** What the cache holds after every listed path has been looked up. *)
Lemma gains_cachedAfter (fs : FileSystem) l cache cache' :
  gains fs (filePaths l) cache cache' →
  (∀ p, p ∈ filePaths l → is_Some (cache' !! p)) →
  ∀ p, cache' !! p = cachedAfter fs l cache p.
Proof.
  intros Hg Hall p. unfold cachedAfter.
  destruct (cache !! p) as [promise |] eqn:Ep.
  - by apply (gains_lookup _ _ _ _ _ _ Hg).
  - destruct (decide (p ∈ filePaths l)) as [Hin | Hout].
    + rewrite bool_decide_eq_true_2 by done.
      destruct (Hg p) as [E | (_ & _ & E)]; [| done].
      destruct (Hall p Hin) as [promise Hp]. congruence.
    + rewrite bool_decide_eq_false_2 by done.
      destruct (Hg p) as [E | (_ & Hin & _)]; [congruence | done].
Qed.

(** *** The loop over the sorted invalidations *)

Lemma joined_cons part parts :
  joined (part :: parts)
  = (try x := part in try y := joined parts in Ok (x +:+ y))%result.
Proof. reflexivity. Qed.

Lemma joined_Ok parts : joined (Ok <$> parts) = Ok (concatenated parts).
Proof.
  induction parts as [| x parts IH]; [done |].
  by rewrite fmap_cons, joined_cons, IH.
Qed.

Lemma contribution_fileHash options cache cache' :
  (∀ p, fileHash (ParcelOptions.inputFS options) cache' p
        = fileHash (ParcelOptions.inputFS options) cache p) →
  ∀ j, contribution options cache' j = contribution options cache j.
Proof. intros Hsame j. unfold contribution. by rewrite Hsame. Qed.

(** Only a file entry contributes an error. *)
Lemma contribution_Throw options cache i msg :
  contribution options cache i = Throw msg →
  RequestInvalidation.type i = "file"
  ∧ fileHash (ParcelOptions.inputFS options) cache
             (RequestInvalidation.filePath i) = Throw msg.
Proof.
  unfold contribution.
  destruct (String.eqb_spec (RequestInvalidation.type i) "file"); [done |].
  by destruct (String.eqb (RequestInvalidation.type i) "env").
Qed.

(** When every listed file can be hashed, every entry contributes a
    string. *)
Lemma contributions_Ok options cache s :
  (∀ p, p ∈ filePaths s →
        is_Some (returned (fileHash (ParcelOptions.inputFS options) cache p))) →
  ∃ parts, contribution options cache <$> s = Ok <$> parts.
Proof.
  induction s as [| i s IH]; intros Hfiles; [by exists [] |].
  destruct IH as (parts & Hparts).
  { intros p Hp. apply Hfiles. rewrite filePaths_cons.
    destruct (String.eqb _ "file"); [by right | done]. }
  destruct (contribution options cache i) as [part | msg] eqn:Ei.
  - exists (part :: parts). by rewrite !fmap_cons, Ei, Hparts.
  - apply contribution_Throw in Ei as [Ht Ei].
    destruct (Hfiles (RequestInvalidation.filePath i)) as [h Hh].
    + rewrite filePaths_cons, Ht. by left.
    + by rewrite Ei in Hh.
Qed.

(** A turn for an invalidation of a known type appends its contribution
    or throws it; the promise of a file enters the cache only where the
    cache had none, and is there afterwards. *)
Lemma hashInvalidation_known options hashes i cache :
  knownType i →
  ∃ cache',
    hashInvalidation options hashes i cache
    = ((try part := contribution options cache i in
        Ok (hashes +:+ part))%result, cache')
    ∧ gains (ParcelOptions.inputFS options) (filePaths [i]) cache cache'
    ∧ ∀ p, p ∈ filePaths [i] → is_Some (cache' !! p).
Proof.
  unfold hashInvalidation, contribution, fileHash.
  rewrite filePaths_cons.
  intros [Ht | [Ht | Ht]]; rewrite Ht; simpl.
  - destruct (cache !! RequestInvalidation.filePath i) as [h |] eqn:Eh; simpl.
    + exists cache. split; [done |]. split; [apply gains_refl |].
      intros p ->%list_elem_of_singleton. by rewrite Eh.
    + eexists. split; [done |]. split.
      * intros p.
        destruct (decide (p = RequestInvalidation.filePath i)) as [-> | Hne].
        -- right. split; [done |]. split; [by left |].
           by rewrite lookup_insert_eq.
        -- left. by rewrite lookup_insert_ne.
      * intros p ->%list_elem_of_singleton. by rewrite lookup_insert_eq.
  - exists cache. split; [done |]. split; [apply gains_refl |].
    by intros p Hp%elem_of_nil.
  - exists cache. split; [done |]. split; [apply gains_refl |].
    by intros p Hp%elem_of_nil.
Qed.

Lemma hashInvalidation_unknown options hashes i cache :
  ¬ knownType i →
  hashInvalidation options hashes i cache = (Throw (unknownTypeError i), cache).
Proof.
  unfold knownType, hashInvalidation, unknownTypeError. intros Hn.
  destruct (String.eqb_spec (RequestInvalidation.type i) "file"); [tauto |].
  destruct (String.eqb_spec (RequestInvalidation.type i) "env"); [tauto |].
  destruct (String.eqb_spec (RequestInvalidation.type i) "option"); [tauto |].
  reflexivity.
Qed.

(** The loop over invalidations of known types: it returns what the
    entries contribute, joined in their order, or throws the first error
    among the contributions; the cache gains promises of listed files
    only, of all of them when the loop returns, and holds the rejected
    promise when the loop throws. *)
Lemma hashInvalidations_known options s : ∀ hashes cache,
  Forall knownType s →
  ∃ cache',
    hashInvalidations options hashes s cache
    = ((try rest := joined (contribution options cache <$> s) in
        Ok (hashes +:+ rest))%result, cache')
    ∧ gains (ParcelOptions.inputFS options) (filePaths s) cache cache'
    ∧ (is_Some (returned (joined (contribution options cache <$> s))) →
       ∀ p, p ∈ filePaths s → is_Some (cache' !! p))
    ∧ ∀ msg,
        joined (contribution options cache <$> s) = Throw msg →
        ∃ j, j ∈ s
             ∧ RequestInvalidation.type j = "file"
             ∧ fileHash (ParcelOptions.inputFS options) cache
                        (RequestInvalidation.filePath j) = Throw msg
             ∧ cache' !! RequestInvalidation.filePath j = Some (Throw msg).
Proof.
  induction s as [| i s IH]; intros hashes cache Hs.
  - exists cache. simpl. rewrite append_nil_r.
    split; [done |]. split; [apply gains_refl |].
    split; [by intros _ p Hp%elem_of_nil | done].
  - apply Forall_cons in Hs as [Hi Hs].
    destruct (hashInvalidation_known options hashes i cache Hi)
      as (cache1 & Hstep & Hgains1 & Hheld1).
    cbn [hashInvalidations]. rewrite Hstep, fmap_cons, joined_cons.
    change (filePaths (i :: s)) with (filePaths ([i] ++ s)).
    rewrite filePaths_app.
    destruct (contribution options cache i) as [part | msg] eqn:Ei;
      cbn [result_bind].
    + destruct (IH (hashes +:+ part) cache1 Hs)
        as (cache' & Hloop & Hgains & Hheld & Hthrow).
      assert (contribution options cache1 <$> s
              = contribution options cache <$> s) as Hsame.
      { apply list_fmap_ext. intros _ j _.
        apply contribution_fileHash. by eapply gains_fileHash. }
      rewrite Hsame in Hloop, Hheld, Hthrow.
      exists cache'. rewrite Hloop. split; [| split; [| split]].
      * destruct (joined (contribution options cache <$> s)); simpl;
          [by rewrite append_assoc | done].
      * by eapply gains_trans.
      * intros Hok p [Hp | Hp]%elem_of_app.
        -- destruct (Hheld1 p Hp) as [promise Hpromise].
           exists promise. by eapply gains_lookup.
        -- apply Hheld; [| done].
           by destruct (joined (contribution options cache <$> s)).
      * intros msg Hmsg.
        destruct (joined (contribution options cache <$> s)) as [rest | msg']
          eqn:Erest; [done |]. injection Hmsg as ->.
        destruct (Hthrow msg eq_refl) as (j & Hj & Htype & Hhash & Hcached).
        exists j. split; [by right |]. split; [done |]. split; [| done].
        by rewrite <- (gains_fileHash _ _ _ _ Hgains1).
    + exists cache1. split; [done |]. split; [| split].
      * rewrite <- (app_nil_r (filePaths [i] ++ filePaths s)),
          <- app_assoc.
        eapply gains_trans; [done | apply gains_refl].
      * by intros [? [=]].
      * intros ? [= <-].
        apply contribution_Throw in Ei as [Htype Ei].
        exists i. split; [by left |]. split; [done |]. split; [done |].
        rewrite <- Ei, <- (gains_fileHash _ _ _ _ Hgains1).
        apply lookup_fileHash, Hheld1.
        rewrite filePaths_cons, Htype. by left.
Qed.

(** *** [getInvalidationHash] *)

Lemma getInvalidationHash_nil options cache :
  getInvalidationHash [] options cache = (Ok "", cache).
Proof. reflexivity. Qed.

Lemma getInvalidationHash_known l options cache :
  l ≠ [] → Forall knownType l →
  ∃ s cache',
    s ≡ₚ l ∧ sortedById s
    ∧ getInvalidationHash l options cache
      = ((try hashes := joined (contribution options cache <$> s) in
          Ok (hashString hashes))%result, cache')
    ∧ gains (ParcelOptions.inputFS options) (filePaths l) cache cache'
    ∧ (is_Some (returned (joined (contribution options cache <$> s))) →
       ∀ p, p ∈ filePaths l → is_Some (cache' !! p))
    ∧ ∀ msg,
        joined (contribution options cache <$> s) = Throw msg →
        ∃ j, j ∈ l
             ∧ RequestInvalidation.type j = "file"
             ∧ fileHash (ParcelOptions.inputFS options) cache
                        (RequestInvalidation.filePath j) = Throw msg
             ∧ cache' !! RequestInvalidation.filePath j = Some (Throw msg).
Proof.
  intros Hne Hl. unfold getInvalidationHash.
  destruct l as [| x l]; [done |]. cbn [length Nat.eqb].
  destruct (sort_known (x :: l) Hl) as (s & -> & Hperm & Hsorted).
  destruct (hashInvalidations_known options s "" cache)
    as (cache' & -> & Hgains & Hheld & Hthrow).
  { by rewrite Hperm. }
  exists s, cache'. split; [done |]. split; [done |].
  split; [| split; [| split]].
  - by destruct (joined (contribution options cache <$> s)).
  - eapply gains_paths; [| done]. intros p. by apply filePaths_perm.
  - intros Hok p Hp. apply Hheld; [done |]. by apply (filePaths_perm _ _ Hperm).
  - intros msg Hmsg.
    destruct (Hthrow msg Hmsg) as (j & Hj & ?). exists j.
    split; [by rewrite <- Hperm | done].
Qed.

(** A list that holds an entry of unknown type makes the call throw the
    error of such an entry, before any file is looked at. *)
Lemma getInvalidationHash_unknown l options cache i :
  i ∈ l → ¬ knownType i →
  ∃ j,
    j ∈ l ∧ ¬ knownType j
    ∧ getInvalidationHash l options cache
      = (Throw (unknownTypeError j), cache).
Proof.
  intros Hi Hn. unfold getInvalidationHash.
  destruct l as [| x l]; [by apply elem_of_nil in Hi |]. cbn [length Nat.eqb].
  destruct (sort compareInvalidations (x :: l)) as [s | msg] eqn:Es.
  - destruct l as [| y l].
    + apply list_elem_of_singleton in Hi as ->.
      simpl in Es. injection Es as <-. cbn [hashInvalidations].
      rewrite hashInvalidation_unknown by done.
      exists x. split; [by left | done].
    + apply sort_Ok_known in Es; [| simpl; lia].
      rewrite Forall_forall in Es. by destruct (Hn (Es i Hi)).
  - apply sort_Throw in Es as (j & Hj & Hnj & ->). by exists j.
Qed.

(** Two sorted lists of invalidations of known types that are permutations
    of each other contribute the same in the same order. *)
Lemma sorted_contributions options cache s s' :
  Forall knownType s → Forall knownType s' →
  sortedById s → sortedById s' → s ≡ₚ s' →
  contribution options cache <$> s = contribution options cache <$> s'.
Proof.
  intros Hs Hs' Hsorted Hsorted' Hperm.
  assert (invalidationId <$> s = invalidationId <$> s') as Hids.
  { apply (StronglySorted_unique String.le); [done | done |].
    by apply fmap_Permutation. }
  clear Hsorted Hsorted' Hperm. revert s' Hs' Hids.
  induction Hs as [| a s Ha Hs IH]; intros [| b s'] Hs' Hids;
    simplify_eq/=; [done |].
  apply Forall_cons in Hs' as [Hb Hs'].
  f_equal; [by apply contribution_id | by apply IH].
Qed.

(** C1. For every list of invalidation entries, [getInvalidationHash]
    returns the same digest for every permutation of the list: the digest
    does not depend on the order of the entries. For the empty list it
    returns the empty string, whatever [hashString] is, and leaves the hash
    cache alone. When every entry has one of the three known types and the
    promise of every listed file is fulfilled, the permutations do return
    a digest; and when every entry has a known type, the permutations
    return the same digest or throw the same error, that of a rejected
    file promise. *)
Theorem getInvalidationHash_order_independent :
  (∀ options cache, getInvalidationHash [] options cache = (Ok "", cache))
  ∧ (∀ l l' options cache,
       l ≡ₚ l' →
       digest (getInvalidationHash l options cache)
       = digest (getInvalidationHash l' options cache))
  ∧ (∀ l options cache,
       Forall knownType l →
       (∀ path, path ∈ filePaths l →
                is_Some (returned (fileHash (ParcelOptions.inputFS options)
                                            cache path))) →
       is_Some (digest (getInvalidationHash l options cache)))
  ∧ (∀ l l' options cache,
       l ≡ₚ l' →
       Forall knownType l →
       (getInvalidationHash l options cache).1
       = (getInvalidationHash l' options cache).1).
Proof.
  split; [apply getInvalidationHash_nil |]. split; [| split].
  - intros l l' options cache Hperm.
    destruct l as [| x l].
    { by apply Permutation_nil in Hperm as ->. }
    assert (l' ≠ []) as Hne'.
    { intros ->. by apply Permutation_nil_r in Hperm. }
    destruct (decide (Forall knownType (x :: l))) as [Hl | Hl].
    + destruct (getInvalidationHash_known (x :: l) options cache)
        as (s & c & Hs & Hsorted & -> & _); [done | done |].
      destruct (getInvalidationHash_known l' options cache)
        as (s' & c' & Hs' & Hsorted' & -> & _); [done | by rewrite <- Hperm |].
      rewrite (sorted_contributions options cache s s'); [done | | | done | done |].
      * by rewrite Hs.
      * by rewrite Hs', <- Hperm.
      * by rewrite Hs, Hs'.
    + apply not_Forall_Exists in Hl; [| intros i; apply knownType_dec].
      apply Exists_exists in Hl as (i & Hi & Hn).
      destruct (getInvalidationHash_unknown (x :: l) options cache i Hi Hn)
        as (j & _ & _ & ->).
      rewrite Hperm in Hi.
      destruct (getInvalidationHash_unknown l' options cache i Hi Hn)
        as (j' & _ & _ & ->).
      done.
  - intros l options cache Hl Hfiles. destruct l as [| x l]; [by eexists |].
    destruct (getInvalidationHash_known (x :: l) options cache)
      as (s & c & Hperm & _ & -> & _); [done | done |].
    destruct (contributions_Ok options cache s) as (parts & ->).
    { intros p Hp. apply Hfiles. by apply (filePaths_perm _ _ Hperm). }
    rewrite joined_Ok. by eexists.
  - intros l l' options cache Hperm Hl.
    destruct l as [| x l].
    { by apply Permutation_nil in Hperm as ->. }
    assert (l' ≠ []) as Hne'.
    { intros ->. by apply Permutation_nil_r in Hperm. }
    destruct (getInvalidationHash_known (x :: l) options cache)
      as (s & c & Hs & Hsorted & -> & _); [done | done |].
    destruct (getInvalidationHash_known l' options cache)
      as (s' & c' & Hs' & Hsorted' & -> & _); [done | by rewrite <- Hperm |].
    rewrite (sorted_contributions options cache s s');
      [done | | | done | done |].
    + by rewrite Hs.
    + by rewrite Hs', <- Hperm.
    + by rewrite Hs, Hs'.
Qed.

(** C5. An invalidation whose type is none of ['file'], ['env'] and
    ['option'] makes [getInvalidationId] throw "Unknown invalidation type",
    and makes [getInvalidationHash] throw that error for every list that
    holds it: the call returns no digest, and the error it throws names an
    entry of the list that has an unknown type. *)
Theorem unknown_invalidation_type_throws i :
  RequestInvalidation.type i ≠ "file" →
  RequestInvalidation.type i ≠ "env" →
  RequestInvalidation.type i ≠ "option" →
  getInvalidationId i
  = Throw ("Unknown invalidation type: " +:+ RequestInvalidation.type i)
  ∧ ∀ l options cache,
      i ∈ l →
      ∃ j cache',
        j ∈ l
        ∧ getInvalidationId j
          = Throw ("Unknown invalidation type: " +:+ RequestInvalidation.type j)
        ∧ getInvalidationHash l options cache
          = (Throw ("Unknown invalidation type: " +:+ RequestInvalidation.type j),
             cache').
Proof.
  intros Hf He Ho.
  assert (¬ knownType i) as Hn by (unfold knownType; tauto).
  split; [by apply getInvalidationId_unknown |].
  intros l options cache Hi.
  destruct (getInvalidationHash_unknown l options cache i Hi Hn)
    as (j & Hj & Hnj & ->).
  exists j, cache. split; [done |]. split; [| done].
  by apply getInvalidationId_unknown.
Qed.

Lemma hashInvalidation_env_empty options i hashes cache k :
  ParcelOptions.env options !! k = None →
  (RequestInvalidation.type i = "option" →
   RequestInvalidation.key i ≠ "env") →
  hashInvalidation
    (ParcelOptions.withEnv (<[k := ""]> (ParcelOptions.env options)) options)
    hashes i cache
  = hashInvalidation options hashes i cache.
Proof.
  intros Hk Hopt. unfold hashInvalidation. simpl.
  destruct (String.eqb_spec (RequestInvalidation.type i) "file"); [done |].
  destruct (String.eqb_spec (RequestInvalidation.type i) "env").
  { do 4 f_equal.
    destruct (decide (k = RequestInvalidation.key i)) as [<- | Hne].
    - by rewrite lookup_insert_eq, Hk.
    - by rewrite lookup_insert_ne. }
  destruct (String.eqb_spec (RequestInvalidation.type i) "option"); [| done].
  do 4 f_equal. unfold ParcelOptions.get. simpl.
  destruct (String.eqb_spec (RequestInvalidation.key i) "env"); [| done].
  by destruct Hopt.
Qed.

(** C10, as amended. For every list of invalidations that holds no
    ['option'] entry for the key ['env'], [getInvalidationHash] returns the
    same result, and leaves the same hash cache, when an environment
    variable is absent as when it is present with the empty string as its
    value: the digest cannot tell an unset variable from one set to the
    empty string. *)
Theorem getInvalidationHash_env_absent_or_empty l options cache k :
  ParcelOptions.env options !! k = None →
  (∀ i, i ∈ l → RequestInvalidation.type i = "option" →
        RequestInvalidation.key i ≠ "env") →
  getInvalidationHash l
    (ParcelOptions.withEnv (<[k := ""]> (ParcelOptions.env options)) options)
    cache
  = getInvalidationHash l options cache.
Proof.
  intros Hk Hopt. unfold getInvalidationHash.
  destruct (length l =? 0)%nat; [done |].
  destruct (sort compareInvalidations l) as [s | msg] eqn:Es; [| done].
  assert (∀ i, i ∈ s → RequestInvalidation.type i = "option" →
               RequestInvalidation.key i ≠ "env") as Hs.
  { intros i Hi. apply Hopt. by rewrite <- (sort_perm _ _ _ Es). }
  clear Es Hopt.
  enough (∀ hashes c,
    hashInvalidations
      (ParcelOptions.withEnv (<[k := ""]> (ParcelOptions.env options)) options)
      hashes s c
    = hashInvalidations options hashes s c) as -> by done.
  induction s as [| i s IH]; intros hashes c; simpl; [done |].
  rewrite hashInvalidation_env_empty; [| done | apply Hs; by left].
  destruct (hashInvalidation options hashes i c) as [[hashes' | msg] c'];
    [| done].
  apply IH. intros j Hj. apply Hs. by right.
Qed.
End InvalidationFacts.

Example getInvalidationHash_sample :
  @getInvalidationHash Sample.collaborators
    [Sample.optionMode; Sample.envK; Sample.fileA] Sample.parcelOptions ∅
  = (Ok "K:body{}mode:production", {["a.css" := Ok "body{}"]}).
Proof. vm_compute. reflexivity. Qed.

Lemma getInvalidationHash_order_independent_witness :
  let l := [Sample.envK; Sample.fileA; Sample.optionMode] in
  let l' := [Sample.optionMode; Sample.envK; Sample.fileA] in
  l ≡ₚ l'
  ∧ digest (@getInvalidationHash Sample.collaborators l Sample.parcelOptions ∅)
    = digest
        (@getInvalidationHash Sample.collaborators l' Sample.parcelOptions ∅).
Proof.
  intros l l'.
  assert (l ≡ₚ l') as Hperm
    by apply (Permutation_app_comm [Sample.envK; Sample.fileA]
                                   [Sample.optionMode]).
  split; [exact Hperm |].
  exact (proj1 (proj2 (@getInvalidationHash_order_independent
                         Sample.collaborators))
           l l' Sample.parcelOptions ∅ Hperm).
Defined.

Lemma unknown_invalidation_type_throws_witness :
  let l := [Sample.fileA; Sample.globEntry] in
  Sample.globEntry ∈ l
  ∧ @getInvalidationId Sample.globEntry = Throw "Unknown invalidation type: glob"
  ∧ ∃ j cache',
      j ∈ l
      ∧ @getInvalidationHash Sample.collaborators l Sample.parcelOptions ∅
        = (Throw ("Unknown invalidation type: " +:+ RequestInvalidation.type j),
           cache').
Proof.
  intros l.
  assert (Sample.globEntry ∈ l) as Hin by (right; left).
  destruct (@unknown_invalidation_type_throws Sample.collaborators
              Sample.globEntry)
    as [Hid Hhash]; [discriminate | discriminate | discriminate |].
  split; [exact Hin |]. split; [exact Hid |].
  destruct (Hhash l Sample.parcelOptions ∅ Hin) as (j & cache' & Hj & _ & E).
  exists j, cache'. split; [exact Hj | exact E].
Defined.

(** C10, counterexample. With an ['option'] entry for the key ['env'] next
    to the ['env'] entry, the digest tells the variable that is not set
    from the variable that is set to the empty string, as soon as
    [hashFromOption] tells the two objects apart. *)
Lemma getInvalidationHash_env_option_entry :
  let l := [Sample.envK; Sample.optionEnv] in
  ParcelOptions.env Sample.parcelOptions !! "K" = None
  ∧ digest
      (@getInvalidationHash Sample.collaborators l
         (ParcelOptions.withEnv (<["K" := ""]> ∅) Sample.parcelOptions) ∅)
    ≠ digest
        (@getInvalidationHash Sample.collaborators l Sample.parcelOptions ∅).
Proof. vm_compute. split; [reflexivity | discriminate]. Qed.

Lemma getInvalidationHash_env_absent_or_empty_witness :
  let l := [Sample.envK; Sample.fileA; Sample.optionMode] in
  ParcelOptions.env Sample.parcelOptions !! "K" = None
  ∧ @getInvalidationHash Sample.collaborators l
      (ParcelOptions.withEnv (<["K" := ""]> ∅) Sample.parcelOptions) ∅
    = @getInvalidationHash Sample.collaborators l Sample.parcelOptions ∅.
Proof.
  intros l.
  assert (ParcelOptions.env Sample.parcelOptions !! "K" = None) as Hk
    by reflexivity.
  split; [exact Hk |].
  apply (@getInvalidationHash_env_absent_or_empty Sample.collaborators
           l Sample.parcelOptions ∅ "K" Hk).
  intros i Hi.
  repeat (apply elem_of_cons in Hi as [-> | Hi]); try discriminate.
  by apply elem_of_nil in Hi.
Defined.

Section GenerationFacts.
Context `{Collaborators} `{!PluginLoader}.
Implicit Types (asset : AssetWrapper) (st : State) (a : positive).

Lemma occurrences_cons a b log :
  occurrences a (b :: log)
  = ((if decide (b = a) then 1 else 0) + occurrences a log)%nat.
Proof.
  unfold occurrences. rewrite filter_cons. by destruct (decide (b = a)).
Qed.

Local Ltac ended := do 2 eexists; split; [reflexivity |]; auto.

(** The body leaves the [WeakMap] and the log of started computations
    alone, and logs one call of [generate] when it gets that far. *)
Lemma generateBody_logs asset st :
  ∃ outcome st',
    generateBody asset st = (outcome, st')
    ∧ generateResults st' = generateResults st
    ∧ started st' = started st
    ∧ generateCalls st'
      = (if reachesGenerate asset then [address (value asset)] else [])
          ++ generateCalls st.
Proof.
  unfold generateBody, reachesGenerate, bind, lift, ret, throw, nullthrows,
    logGenerate, cacheSet, cacheGetStream.
  destruct (getAST asset); simpl; [| ended].
  destruct (Asset.plugin _); simpl; [| ended].
  destruct (Asset.configPath _); simpl; [| ended].
  destruct (Asset.configKeyPath _); simpl; [| ended].
  destruct (loadPlugin _ _ _ _) as [plugin |]; simpl; [| ended].
  destruct (generate plugin) as [g |]; simpl; [| ended].
  destruct (g _ _ _) as [output |]; simpl; [| ended].
  destruct (Asset.contentKey _); simpl; [| ended].
  destruct (GenerateOutput.map output); simpl.
  - destruct (Asset.mapKey _); simpl; [| ended].
    destruct (GenerateOutput.content output); simpl; ended.
  - destruct (GenerateOutput.content output); simpl; ended.
Qed.

Lemma generateFromAST_cached asset st p :
  generateResults st !! address (value asset) = Some p →
  generateFromAST asset st = (p, st).
Proof. unfold generateFromAST. by intros ->. Qed.

Lemma generateFromAST_fresh asset st :
  generateResults st !! address (value asset) = None →
  ∃ p st',
    generateFromAST asset st = (p, st')
    ∧ generateResults st' = <[address (value asset) := p]> (generateResults st)
    ∧ started st' = address (value asset) :: started st
    ∧ generateCalls st'
      = (if reachesGenerate asset then [address (value asset)] else [])
          ++ generateCalls st.
Proof.
  unfold generateFromAST, _generateFromAST. intros ->.
  destruct (generateBody_logs asset st)
    as (outcome & st' & -> & Hres & Hstarted & Hcalls).
  simpl. do 2 eexists. split; [done |]. simpl.
  by rewrite Hres, Hstarted, Hcalls.
Qed.

(** What a run of calls does to the entry and to the logs of one address. *)
Lemma generateAll_address assets : ∀ st a,
  let st' := (generateAll assets st).2 in
  (∀ p, generateResults st !! a = Some p → generateResults st' !! a = Some p)
  ∧ (is_Some (firstCallFor a assets) → is_Some (generateResults st' !! a))
  ∧ occurrences a (started st')
    = (occurrences a (started st)
       + match generateResults st !! a, firstCallFor a assets with
         | None, Some _ => 1
         | _, _ => 0
         end)%nat
  ∧ occurrences a (generateCalls st')
    = (occurrences a (generateCalls st)
       + match generateResults st !! a, firstCallFor a assets with
         | None, Some asset => if reachesGenerate asset then 1 else 0
         | _, _ => 0
         end)%nat.
Proof.
  induction assets as [| asset assets IH]; intros st a; simpl.
  { unfold firstCallFor. simpl. split; [done |]. split; [by intros [] |].
    destruct (generateResults st !! a); simpl; lia. }
  destruct (generateFromAST asset st) as [p st1] eqn:Ecall.
  specialize (IH st1 a).
  destruct (generateAll assets st1) as [ps st2]. simpl in *.
  destruct IH as (IHkeep & IHsome & IHstarted & IHcalls).
  unfold firstCallFor in *. rewrite filter_cons.
  destruct (generateResults st !! address (value asset)) as [q |] eqn:Eq.
  - rewrite (generateFromAST_cached _ _ _ Eq) in Ecall. simplify_eq.
    destruct (decide (address (value asset) = a)) as [<- | Hne]; simpl.
    + rewrite Eq in *. repeat split; [done | | done | done].
      intros _. by rewrite (IHkeep p eq_refl).
    + done.
  - destruct (generateFromAST_fresh _ _ Eq)
      as (p' & st' & Ecall' & Hres & Hstarted & Hcalls).
    rewrite Ecall in Ecall'. simplify_eq.
    rewrite IHstarted, IHcalls, Hres, Hstarted, Hcalls.
    destruct (decide (address (value asset) = a)) as [<- | Hne]; simpl.
    + rewrite Hres, lookup_insert_eq in IHkeep.
      rewrite Eq, lookup_insert_eq, occurrences_cons, decide_True by done.
      split; [done |]. split; [by eauto |]. split; [lia |].
      destruct (reachesGenerate asset); simpl; [| lia].
      rewrite occurrences_cons, decide_True by done. lia.
    + rewrite Hres, lookup_insert_ne in IHkeep by done.
      rewrite lookup_insert_ne, occurrences_cons, decide_False by done.
      split; [done |]. split; [done |]. split; [done |].
      destruct (reachesGenerate asset); simpl; [| done].
      by rewrite occurrences_cons, decide_False by done.
Qed.

(** Every call returns the promise that the [WeakMap] holds in the end for
    the asset value of the call. *)
Lemma generateAll_outputs assets : ∀ st i asset,
  assets !! i = Some asset →
  (generateAll assets st).1 !! i
  = generateResults (generateAll assets st).2 !! address (value asset).
Proof.
  induction assets as [| first assets IH]; intros st i asset Hi; [done |].
  simpl. destruct (generateFromAST first st) as [p st1] eqn:Ecall.
  assert (generateResults st1 !! address (value first) = Some p) as Hstored.
  { destruct (generateResults st !! address (value first)) as [q |] eqn:Eq.
    - rewrite (generateFromAST_cached _ _ _ Eq) in Ecall. by simplify_eq.
    - destruct (generateFromAST_fresh _ _ Eq) as (p' & st' & E & Hres & _).
      rewrite Ecall in E. simplify_eq. by rewrite Hres, lookup_insert_eq. }
  pose proof (generateAll_address assets st1) as Haddr.
  specialize (IH st1).
  destruct (generateAll assets st1) as [ps st2]. simpl in *.
  destruct i as [| i]; simpl in *.
  - simplify_eq. symmetry. by apply (Haddr (address (value asset))).
  - by apply IH.
Qed.

Lemma firstCallFor_elem_of a assets asset :
  asset ∈ assets → address (value asset) = a →
  ∃ first, firstCallFor a assets = Some first ∧ first ∈ assets
           ∧ address (value first) = a.
Proof.
  intros Hin Ha. unfold firstCallFor.
  destruct (filter (λ x, address (value x) = a) assets) as [| first l] eqn:E.
  - assert (asset ∈ filter (λ x, address (value x) = a) assets) as Hf
      by (by apply list_elem_of_filter).
    rewrite E in Hf. by apply elem_of_nil in Hf.
  - exists first. split; [done |].
    assert (first ∈ filter (λ x, address (value x) = a) assets) as Hf
      by (rewrite E; left).
    by apply list_elem_of_filter in Hf as [? ?].
Qed.

(** C2, as amended. Take any run of calls of [generateFromAST], from the
    state in which the module is loaded, and an asset value that one of the
    calls is for. The first call for it starts [_generateFromAST] and
    stores its promise under the asset value; no other call starts it, and
    each call for that asset value returns that one promise. The
    [generate] method of the plugin is called at most once for it: once
    when the first call finds an AST, the names of the plugin and of its
    configuration, and a plugin that loads and has [generate], and not at
    all otherwise. *)
Theorem generateFromAST_once cache assets asset :
  asset ∈ assets →
  let a := address (value asset) in
  let outputs := (generateAll assets (initialState cache)).1 in
  let st := (generateAll assets (initialState cache)).2 in
  occurrences a (started st) = 1%nat
  ∧ (∃ first,
       firstCallFor a assets = Some first
       ∧ occurrences a (generateCalls st)
         = if reachesGenerate first then 1%nat else 0%nat)
  ∧ (∃ p,
       generateResults st !! a = Some p
       ∧ ∀ i other,
           assets !! i = Some other → address (value other) = a →
           outputs !! i = Some p).
Proof.
  intros Hin a outputs st.
  destruct (firstCallFor_elem_of a assets asset Hin eq_refl)
    as (first & Hfirst & _ & _).
  destruct (generateAll_address assets (initialState cache) a)
    as (_ & Hsome & Hstarted & Hcalls).
  fold st in Hsome, Hstarted, Hcalls.
  rewrite Hfirst in Hsome, Hstarted, Hcalls. simpl in Hstarted, Hcalls.
  rewrite lookup_empty in Hstarted, Hcalls.
  split; [done |]. split; [by exists first |].
  destruct Hsome as [p Hp]; [done |]. exists p. split; [done |].
  intros i other Hi Ha. subst outputs st a.
  by rewrite (generateAll_outputs _ _ _ _ Hi), Ha.
Qed.

End GenerationFacts.

(** C2, counterexample. Two calls for one asset value whose wrapper has no
    AST: [_generateFromAST] is started once and throws before it gets to
    the plugin, whose [generate] is called not once but never. *)
Lemma generateFromAST_without_AST :
  let st :=
    (@generateAll Sample.collaborators Sample.pluginLoader
       [Sample.withoutAST; Sample.withoutAST] (initialState ∅)).2 in
  occurrences 1 (started st) = 1%nat
  ∧ occurrences 1 (generateCalls st) ≠ 1%nat.
Proof. vm_compute. split; [reflexivity | discriminate]. Qed.

Lemma generateFromAST_once_witness :
  let assets := [Sample.withAST; Sample.withoutAST; Sample.withAST] in
  let outputs :=
    (@generateAll Sample.collaborators Sample.pluginLoader assets
                  (initialState ∅)).1 in
  let st :=
    (@generateAll Sample.collaborators Sample.pluginLoader assets
                  (initialState ∅)).2 in
  Sample.withoutAST ∈ assets
  ∧ occurrences 1 (started st) = 1%nat
  ∧ occurrences 1 (generateCalls st) = 1%nat
  ∧ ∃ p, outputs = [p; p; p].
Proof.
  intros assets outputs st.
  assert (Sample.withoutAST ∈ assets) as Hin by (right; left).
  split; [exact Hin |].
  destruct (@generateFromAST_once Sample.collaborators Sample.pluginLoader
              ∅ assets _ Hin)
    as (Hstarted & (first & Hfirst & Hcalls) & (p & _ & Hp)).
  split; [exact Hstarted |].
  split.
  - injection Hfirst as <-. exact Hcalls.
  - exists p.
    pose proof (Hp 0%nat Sample.withAST eq_refl eq_refl) as H0.
    pose proof (Hp 1%nat Sample.withoutAST eq_refl eq_refl) as H1.
    pose proof (Hp 2%nat Sample.withAST eq_refl eq_refl) as H2.
    revert H0 H1 H2. fold outputs.
    assert (length outputs = 3%nat) as Hlen by reflexivity.
    destruct outputs as [| p0 [| p1 [| p2 [| ]]]]; try discriminate Hlen.
    simpl. by intros [= ->] [= ->] [= ->].
Defined.


Section AssetFacts.
Context `{Collaborators}.
Implicit Types options : AssetOptions.t.

(** What [createAssetIdFromOptions] hashes, from its six inputs. *)
Lemma createAssetIdFromOptions_unfold options :
  createAssetIdFromOptions options
  = hashString (identityInput options).
Proof. reflexivity. Qed.

(** C3. Two records of options that agree on the base path ([idBase], or
    else [filePath]), the type, the id of the environment, [uniqueKey],
    [pipeline] and [query] get the same identity from
    [createAssetIdFromOptions], whatever their other fields hold. *)
Theorem createAssetIdFromOptions_deterministic options1 options2 :
  AssetOptions.basePath options1 = AssetOptions.basePath options2 →
  AssetOptions.type options1 = AssetOptions.type options2 →
  environmentId (AssetOptions.env options1)
  = environmentId (AssetOptions.env options2) →
  AssetOptions.uniqueKey options1 = AssetOptions.uniqueKey options2 →
  AssetOptions.pipeline options1 = AssetOptions.pipeline options2 →
  AssetOptions.query options1 = AssetOptions.query options2 →
  createAssetIdFromOptions options1 = createAssetIdFromOptions options2.
Proof.
  unfold createAssetIdFromOptions, AssetOptions.basePath.
  intros Hbase Htype Henv Hkey Hpipeline Hquery.
  rewrite Htype, Henv, Hkey, Hpipeline, Hquery. f_equal. f_equal.
  destruct (AssetOptions.idBase options1), (AssetOptions.idBase options2);
    exact Hbase.
Qed.

Lemma length_append (x y : string) :
  String.length (x +:+ y) = (String.length x + String.length y)%nat.
Proof.
  induction x as [| c x IH]; [done |].
  rewrite append_cons. simpl. by rewrite IH.
Qed.

Lemma identityInput_tail (x y tail : string) :
  x +:+ tail = y +:+ tail → x = y.
Proof.
  intros Heq.
  assert (String.length x = String.length y) as Hlen.
  { apply (f_equal String.length) in Heq.
    rewrite !length_append in Heq. lia. }
  revert y Heq Hlen.
  induction x as [| c x IH]; intros [| d y] Heq Hlen; simpl in Hlen;
    try discriminate; [done |].
  rewrite !append_cons in Heq. injection Heq as -> Heq.
  f_equal. apply IH; [done | lia].
Qed.

(** C4, as amended. Two records of options that agree on the base path
    ([idBase], or else [filePath]), the type, the id of the environment,
    [pipeline] and [query], and whose [uniqueKey]s differ once a missing one
    is read as the empty string, make [createAssetIdFromOptions] hash two
    different strings, whatever [hashString] is. Their identities are the
    hashes of these two strings, so that they are equal only when
    [hashString] collides on them; they differ when [hashString] is
    injective. *)
Theorem createAssetIdFromOptions_uniqueKey options1 options2 :
  AssetOptions.basePath options1 = AssetOptions.basePath options2 →
  AssetOptions.type options1 = AssetOptions.type options2 →
  environmentId (AssetOptions.env options1)
  = environmentId (AssetOptions.env options2) →
  AssetOptions.pipeline options1 = AssetOptions.pipeline options2 →
  AssetOptions.query options1 = AssetOptions.query options2 →
  default "" (AssetOptions.uniqueKey options1)
  ≠ default "" (AssetOptions.uniqueKey options2) →
  identityInput options1 ≠ identityInput options2
  ∧ createAssetIdFromOptions options1 = hashString (identityInput options1)
  ∧ createAssetIdFromOptions options2 = hashString (identityInput options2)
  ∧ (createAssetIdFromOptions options1 = createAssetIdFromOptions options2 →
     ∃ x y, x ≠ y ∧ hashString x = hashString y)
  ∧ ((∀ x y, hashString x = hashString y → x = y) →
     createAssetIdFromOptions options1 ≠ createAssetIdFromOptions options2).
Proof.
  intros Hbase Htype Henv Hpipeline Hquery Hkey.
  assert (identityInput options1 ≠ identityInput options2) as Hinput.
  { unfold identityInput, AssetOptions.basePath in *.
    rewrite Htype, Henv, Hpipeline, Hquery.
    replace (match AssetOptions.idBase options1 with
             | Some idBase => idBase
             | None => AssetOptions.filePath options1
             end)
      with (match AssetOptions.idBase options2 with
            | Some idBase => idBase
            | None => AssetOptions.filePath options2
            end)
      by (by destruct (AssetOptions.idBase options1),
                (AssetOptions.idBase options2)).
    intros Heq. apply Hkey.
    do 3 apply (inj (String.append _)) in Heq.
    by apply identityInput_tail in Heq. }
  split; [done |]. split; [done |]. split; [done |].
  rewrite !createAssetIdFromOptions_unfold. split.
  - intros Heq.
    by exists (identityInput options1), (identityInput options2).
  - intros Hinj Heq. by apply Hinput, Hinj.
Qed.

(** C7. [createAsset] gives the asset the id of the options when there is
    one and [createAssetIdFromOptions(options)] otherwise, and fills in
    what the options leave out: no dependencies, [sideEffects] and
    [isBundleSplittable] true, an empty [meta]. What the options do give
    for these fields is kept. *)
Theorem createAsset_defaults options :
  (∀ id, AssetOptions.id options = Some id →
         Asset.id (createAsset options) = id)
  ∧ (AssetOptions.id options = None →
     Asset.id (createAsset options) = createAssetIdFromOptions options)
  ∧ (AssetOptions.dependencies options = None →
     Asset.dependencies (createAsset options) = ∅)
  ∧ (AssetOptions.sideEffects options = None →
     Asset.sideEffects (createAsset options) = true)
  ∧ (AssetOptions.isBundleSplittable options = None →
     Asset.isBundleSplittable (createAsset options) = true)
  ∧ (AssetOptions.meta options = None →
     Asset.meta (createAsset options) = ∅)
  ∧ (∀ dependencies, AssetOptions.dependencies options = Some dependencies →
       Asset.dependencies (createAsset options) = dependencies)
  ∧ (∀ b, AssetOptions.sideEffects options = Some b →
       Asset.sideEffects (createAsset options) = b)
  ∧ (∀ b, AssetOptions.isBundleSplittable options = Some b →
       Asset.isBundleSplittable (createAsset options) = b)
  ∧ (∀ meta, AssetOptions.meta options = Some meta →
       Asset.meta (createAsset options) = meta).
Proof.
  unfold createAsset; simpl.
  repeat split; intros; by match goal with E : _ = _ |- _ => rewrite E end.
Qed.

(** C9. The identity is not injective in the file path and the type: the
    options with file path ['a'] and type ['bc'] and the options with file
    path ['ab'] and type ['c'], alike in every other field, get the same
    identity, because the base path, the type, the id of the environment
    and [uniqueKey] are joined with nothing in between before they are
    hashed. *)
Theorem createAssetIdFromOptions_not_injective options :
  AssetOptions.filePath (AssetOptions.withPath "a" "bc" options)
  ≠ AssetOptions.filePath (AssetOptions.withPath "ab" "c" options)
  ∧ AssetOptions.type (AssetOptions.withPath "a" "bc" options)
    ≠ AssetOptions.type (AssetOptions.withPath "ab" "c" options)
  ∧ identityInput (AssetOptions.withPath "a" "bc" options)
    = identityInput (AssetOptions.withPath "ab" "c" options)
  ∧ createAssetIdFromOptions (AssetOptions.withPath "a" "bc" options)
    = createAssetIdFromOptions (AssetOptions.withPath "ab" "c" options).
Proof. repeat split; try discriminate; reflexivity. Qed.
End AssetFacts.

Example createAssetIdFromOptions_sample :
  @createAssetIdFromOptions Sample.collaborators Sample.assetOptions
  = "a.csscssbrowser::".
Proof. reflexivity. Qed.

Lemma createAssetIdFromOptions_deterministic_witness :
  Sample.assetOptions ≠ Sample.assetOptionsMoved
  ∧ @createAssetIdFromOptions Sample.collaborators Sample.assetOptions
    = @createAssetIdFromOptions Sample.collaborators Sample.assetOptionsMoved.
Proof.
  split; [discriminate |].
  apply (@createAssetIdFromOptions_deterministic Sample.collaborators
           Sample.assetOptions Sample.assetOptionsMoved); reflexivity.
Defined.

(** C4, counterexample. Options without a [uniqueKey] and the same options
    with the empty string assigned as their [uniqueKey] agree on the file
    path, the type, the environment, the pipeline and the query and have
    two different [uniqueKey]s, and yet they get one identity, even from a
    hash function that is injective. So do two records with the
    [uniqueKey]s ['cssbrowserk'] and ['k'], whose [idBase]s make up for the
    difference. *)
Lemma createAssetIdFromOptions_uniqueKey_collisions :
  (let options1 := AssetOptions.withUniqueKey None Sample.assetOptions in
   let options2 := AssetOptions.withUniqueKey (Some "") Sample.assetOptions in
   @AssetOptions.differInUniqueKey Sample.collaborators options1 options2
   ∧ @createAssetIdFromOptions Sample.collaborators options1
     = @createAssetIdFromOptions Sample.collaborators options2)
  ∧ (let options1 :=
       AssetOptions.withIdBase (Some "x")
         (AssetOptions.withUniqueKey (Some "cssbrowserk")
            Sample.assetOptions) in
     let options2 :=
       AssetOptions.withIdBase (Some "xcssbrowser")
         (AssetOptions.withUniqueKey (Some "k") Sample.assetOptions) in
     @AssetOptions.differInUniqueKey Sample.collaborators options1 options2
     ∧ @createAssetIdFromOptions Sample.collaborators options1
       = @createAssetIdFromOptions Sample.collaborators options2).
Proof.
  unfold AssetOptions.differInUniqueKey.
  repeat split; try reflexivity; discriminate.
Qed.

Lemma createAssetIdFromOptions_uniqueKey_witness :
  let options1 :=
    AssetOptions.withUniqueKey (Some "left") Sample.assetOptions in
  let options2 :=
    AssetOptions.withUniqueKey (Some "right") Sample.assetOptions in
  @identityInput Sample.collaborators options1
  ≠ @identityInput Sample.collaborators options2
  ∧ @createAssetIdFromOptions Sample.collaborators options1
    ≠ @createAssetIdFromOptions Sample.collaborators options2.
Proof.
  intros options1 options2.
  assert (∀ x y, @hashString Sample.collaborators x
                 = @hashString Sample.collaborators y → x = y) as Hinj
    by (intros x y Hxy; exact Hxy).
  assert (default "" (AssetOptions.uniqueKey options1)
          ≠ default "" (AssetOptions.uniqueKey options2)) as Hkey
    by discriminate.
  destruct (@createAssetIdFromOptions_uniqueKey Sample.collaborators
              options1 options2 eq_refl eq_refl eq_refl eq_refl eq_refl Hkey)
    as (Hinput & _ & _ & _ & Hids).
  split; [exact Hinput | exact (Hids Hinj)].
Defined.

Lemma createAsset_defaults_witness :
  let asset := @createAsset Sample.collaborators Sample.assetOptions in
  Asset.id asset = "a.csscssbrowser::"
  ∧ Asset.dependencies asset = ∅
  ∧ Asset.sideEffects asset = true
  ∧ Asset.isBundleSplittable asset = true
  ∧ Asset.meta asset = ∅.
Proof.
  destruct (@createAsset_defaults Sample.collaborators Sample.assetOptions)
    as (_ & Hid & Hdeps & Hside & Hsplit & Hmeta & _).
  exact (conj (Hid eq_refl)
           (conj (Hdeps eq_refl)
              (conj (Hside eq_refl)
                 (conj (Hsplit eq_refl) (Hmeta eq_refl))))).
Defined.

Section PostCSSFacts.
Context `{PostCSS}.
Implicit Types (asset : MutableAsset.t) (msg : Message.t).

Lemma invalidateOnFileChange_all asset (files : list string) :
  let asset' :=
    foldl (λ asset file,
             MutableAsset.invalidateOnFileChange (normalize file) asset)
          asset files in
  MutableAsset.fs asset' = MutableAsset.fs asset
  ∧ MutableAsset.fileChangeInvalidations asset'
    = MutableAsset.fileChangeInvalidations asset ++ (normalize <$> files)
  ∧ MutableAsset.fileCreateInvalidations asset'
    = MutableAsset.fileCreateInvalidations asset.
Proof.
  revert asset. induction files as [| file files IH]; intros asset; simpl.
  - by rewrite app_nil_r.
  - destruct (IH (MutableAsset.invalidateOnFileChange (normalize file) asset))
      as (-> & -> & ->).
    simpl. by rewrite <- app_assoc.
Qed.

Lemma handleMessage_records asset msg :
  MutableAsset.fs (handleMessage asset msg) = MutableAsset.fs asset
  ∧ MutableAsset.fileChangeInvalidations (handleMessage asset msg)
    = MutableAsset.fileChangeInvalidations asset
        ++ messageFileChanges (MutableAsset.fs asset) msg
  ∧ MutableAsset.fileCreateInvalidations (handleMessage asset msg)
    = MutableAsset.fileCreateInvalidations asset ++ messageFileCreates msg.
Proof.
  unfold handleMessage, messageFileChanges, messageFileCreates.
  destruct (String.eqb (Message.type msg) "dependency"); simpl.
  { by rewrite app_nil_r. }
  destruct (String.eqb (Message.type msg) "dir-dependency"); simpl.
  - destruct (invalidateOnFileChange_all asset
                (glob (dirPattern msg) (MutableAsset.fs asset)))
      as (-> & -> & ->).
    done.
  - by rewrite !app_nil_r.
Qed.

Lemma handleMessages_records (messages : list Message.t) : ∀ asset,
  let asset' := foldl handleMessage asset messages in
  MutableAsset.fs asset' = MutableAsset.fs asset
  ∧ MutableAsset.fileChangeInvalidations asset'
    = MutableAsset.fileChangeInvalidations asset
        ++ (messages ≫= messageFileChanges (MutableAsset.fs asset))
  ∧ MutableAsset.fileCreateInvalidations asset'
    = MutableAsset.fileCreateInvalidations asset
        ++ (messages ≫= messageFileCreates).
Proof.
  induction messages as [| msg messages IH]; intros asset.
  - simpl. by rewrite !app_nil_r.
  - rewrite !bind_cons. simpl.
    destruct (IH (handleMessage asset msg)) as (-> & -> & ->).
    destruct (handleMessage_records asset msg) as (-> & -> & ->).
    by rewrite <- !app_assoc.
Qed.

Lemma addDependencies_records (deps : list DependencyOptions.t) : ∀ asset,
  let asset' :=
    foldl (λ asset dep, MutableAsset.addDependency dep asset) asset deps in
  MutableAsset.fs asset' = MutableAsset.fs asset
  ∧ MutableAsset.ast asset' = MutableAsset.ast asset
  ∧ MutableAsset.fileChangeInvalidations asset'
    = MutableAsset.fileChangeInvalidations asset
  ∧ MutableAsset.fileCreateInvalidations asset'
    = MutableAsset.fileCreateInvalidations asset.
Proof.
  induction deps as [| dep deps IH]; intros asset; simpl; [done |].
  by destruct (IH (MutableAsset.addDependency dep asset))
    as (-> & -> & -> & ->).
Qed.

(** What [transform] records when PostCSS has run: the invalidations the
    asset came with, then those of the messages, in the order of the
    messages. *)
Lemma transform_records asset config ast messages root cssModules :
  loadPostcss (MutableAsset.filePath asset) = Ok tt →
  MutableAsset.ast asset = Some ast →
  process config (fromJSON ast) = Ok (messages, root, cssModules) →
  ∃ results asset',
    transform asset (Some config) = (Ok results, asset')
    ∧ MutableAsset.fileChangeInvalidations asset'
      = MutableAsset.fileChangeInvalidations asset
          ++ (messages ≫= messageFileChanges (MutableAsset.fs asset))
    ∧ MutableAsset.fileCreateInvalidations asset'
      = MutableAsset.fileCreateInvalidations asset
          ++ (messages ≫= messageFileCreates).
Proof.
  intros Hload Hast Hprocess. unfold transform. simpl.
  rewrite Hload, Hast. simpl.
  set (asset1 := if _ : bool then _ else _).
  assert (MutableAsset.fs asset1 = MutableAsset.fs asset
          ∧ MutableAsset.fileChangeInvalidations asset1
            = MutableAsset.fileChangeInvalidations asset
          ∧ MutableAsset.fileCreateInvalidations asset1
            = MutableAsset.fileCreateInvalidations asset)
    as (Hfs & Hchange & Hcreate).
  { subst asset1.
    destruct (match (if MutableAsset.isASTDirty asset then _ else _) with
              | Some code => composesTest code
              | None => true
              end); [| done].
    by destruct (addDependencies_records
                   (walkDecls (fromJSON ast) (MutableAsset.filePath asset))
                   (MutableAsset.setType "css" asset))
      as (-> & _ & -> & ->). }
  rewrite Hprocess.
  destruct (handleMessages_records messages (MutableAsset.setAST root asset1))
    as (_ & Hchange' & Hcreate').
  simpl in Hchange', Hcreate'. rewrite Hfs, Hchange in Hchange'.
  rewrite Hcreate in Hcreate'.
  destruct cssModules as [cssModules |]; by do 2 eexists.
Qed.

(** C8. When [transform] runs PostCSS, then for every message of type
    ['dependency'] the asset records a file change invalidation for the
    file of the message, and for every message of type ['dir-dependency']
    it records a file change invalidation for each file that [glob] finds
    for the pattern [<dir>/<glob>], or [<dir>/**/*] when the message has no
    glob, under the name [path.normalize] gives it, and a file create
    invalidation for the glob of that pattern. *)
Theorem transform_records_invalidations
    asset config ast messages root cssModules :
  loadPostcss (MutableAsset.filePath asset) = Ok tt →
  MutableAsset.ast asset = Some ast →
  process config (fromJSON ast) = Ok (messages, root, cssModules) →
  ∃ results asset',
    transform asset (Some config) = (Ok results, asset')
    ∧ ∀ msg,
        msg ∈ messages →
        (Message.type msg = "dependency" →
         Message.file msg ∈ MutableAsset.fileChangeInvalidations asset')
        ∧ (Message.type msg = "dir-dependency" →
           let pattern :=
             Message.dir msg +:+ "/" +:+ default "**/*" (Message.glob msg) in
           (∀ file,
              file ∈ glob pattern (MutableAsset.fs asset) →
              normalize file ∈ MutableAsset.fileChangeInvalidations asset')
           ∧ GlobInvalidation pattern
             ∈ MutableAsset.fileCreateInvalidations asset').
Proof.
  intros Hload Hast Hprocess.
  destruct (transform_records asset config ast messages root cssModules
              Hload Hast Hprocess)
    as (results & asset' & Htransform & Hchange & Hcreate).
  exists results, asset'. split; [done |].
  intros msg Hmsg. rewrite Hchange, Hcreate. split.
  - intros Htype. apply elem_of_app. right.
    apply list_elem_of_bind. exists msg. split; [| done].
    unfold messageFileChanges. rewrite Htype. simpl. by left.
  - intros Htype pattern. split.
    + intros file Hfile. apply elem_of_app. right.
      apply list_elem_of_bind. exists msg. split; [| done].
      unfold messageFileChanges. rewrite Htype. simpl.
      by apply list_elem_of_fmap_2.
    + apply elem_of_app. right.
      apply list_elem_of_bind. exists msg. split; [| done].
      unfold messageFileCreates. rewrite Htype. simpl. by left.
Qed.
End PostCSSFacts.

Section SymbolFacts.
Import SymbolGraph.
Context (graph : gmap string AssetNode) (boundary : option (gset string)).
Implicit Types (r : SymbolResolution.t) (visited : gset (string * string)).

Lemma sentinel_inj o1 o2 : sentinel o1 = sentinel o2 → o1 = o2.
Proof. destruct o1, o2; simpl; congruence. Qed.

Lemma follow_undefinedOutside recurse asset symbol candidates r :
  outside boundary asset = false →
  (∀ target imported r',
     recurse target imported = Some r' → undefinedOutside boundary r') →
  follow boundary recurse asset symbol candidates = Some r →
  undefinedOutside boundary r.
Proof.
  intros Hinside Hrec.
  induction candidates as [| [dep imported] rest IH]; simpl.
  - intros [= <-] Hout. simpl in Hout. congruence.
  - destruct (skipped dep).
    { intros [= <-] Hout. simpl in Hout. congruence. }
    destruct (resolution dep) as [target |]; [| done].
    destruct (recurse target imported) as [r' |] eqn:Er; [| done].
    destruct (notFoundInside boundary r'); [done |].
    intros [= <-]. by eapply Hrec.
Qed.

Lemma resolveSymbolFrom_undefinedOutside fuel : ∀ visited asset symbol r,
  resolveSymbolFrom graph boundary fuel visited asset symbol = Some r →
  undefinedOutside boundary r.
Proof.
  induction fuel as [| fuel IH]; intros visited asset symbol r; simpl;
    [done |].
  destruct (outside boundary asset) eqn:Hout; [by intros [= <-] |].
  destruct (bool_decide ((asset, symbol) ∈ visited)); [by intros [= <-] |].
  destruct (graph !! asset) as [node |]; [| by intros [= <-]].
  destruct (symbols node) as [| table].
  { intros [= <-] Hout'. simpl in Hout'. congruence. }
  destruct (table !! symbol) as [binding |].
  { intros [= <-] Hout'. simpl in Hout'. congruence. }
  apply follow_undefinedOutside; [done |].
  intros target imported r'. apply IH.
Qed.

Lemma follow_is_Some recurse asset symbol candidates :
  (∀ dep imported target,
     (dep, imported) ∈ candidates → resolution dep = Some target →
     is_Some (recurse target imported)) →
  is_Some (follow boundary recurse asset symbol candidates).
Proof.
  induction candidates as [| [dep imported] rest IH]; simpl; intros Hrec;
    [by eexists |].
  destruct (skipped dep); [by eexists |].
  assert (is_Some (follow boundary recurse asset symbol rest)) as Hrest.
  { apply IH. intros ????. apply Hrec. by right. }
  destruct (resolution dep) as [target |] eqn:Eres; [| done].
  destruct (Hrec dep imported target) as [r' ->]; [by left | done |].
  by destruct (notFoundInside boundary r').
Qed.

Lemma reexports_queries asset node symbol dep imported target :
  graph !! asset = Some node →
  (dep, imported) ∈ reexports node symbol →
  resolution dep = Some target →
  (target, imported) ∈ queries graph.
Proof.
  intros Hnode Hin Hres. unfold reexports in Hin. unfold queries.
  apply list_elem_of_bind in Hin as (dep' & Hin & Hdep).
  apply list_elem_of_bind in Hin as ([name [binding weak]] & Hin & Hentry).
  simpl in Hin.
  destruct (bool_decide (binding = symbol) && weak);
    [| by apply elem_of_nil in Hin].
  apply list_elem_of_singleton in Hin. injection Hin as -> ->.
  apply list_elem_of_bind. exists (asset, node). split.
  - apply list_elem_of_bind. exists dep'. split; [| done].
    rewrite Hres. apply list_elem_of_fmap.
    by exists (name, (binding, weak)).
  - by apply elem_of_map_to_list.
Qed.

(** With a unit of fuel for every pair that is not visited yet, and one
    more, the resolution does not run out of fuel. *)
Lemma resolveSymbolFrom_total asset0 symbol0 fuel :
  ∀ visited asset symbol,
    visited ⊆ universe graph asset0 symbol0 →
    (asset, symbol) ∈ universe graph asset0 symbol0 →
    size (universe graph asset0 symbol0) < fuel + size visited →
    is_Some (resolveSymbolFrom graph boundary fuel visited asset symbol).
Proof.
  induction fuel as [| fuel IH]; intros visited asset symbol Hsub Hin Hsize.
  { apply subseteq_size in Hsub. lia. }
  simpl.
  destruct (outside boundary asset); [by eexists |].
  destruct (bool_decide_reflect ((asset, symbol) ∈ visited)) as [| Hfresh];
    [by eexists |].
  destruct (graph !! asset) as [node |] eqn:Hnode; [| by eexists].
  destruct (symbols node) as [| table]; [by eexists |].
  destruct (table !! symbol); [by eexists |].
  apply follow_is_Some. intros dep imported target Hcand Hres.
  apply IH.
  - apply union_subseteq. split; [| done]. by apply singleton_subseteq_l.
  - unfold universe. apply elem_of_list_to_set. right.
    by eapply reexports_queries.
  - rewrite size_union by (by apply disjoint_singleton_l).
    rewrite size_singleton. lia.
Qed.

Lemma resolveSymbol_fuel asset symbol :
  resolveSymbolFrom graph boundary
    (S (size (universe graph asset symbol))) ∅ asset symbol
  = Some (resolveSymbol graph boundary asset symbol).
Proof.
  unfold resolveSymbol.
  destruct (resolveSymbolFrom_total asset symbol
              (S (size (universe graph asset symbol))) ∅ asset symbol)
    as [r ->]; [done | | rewrite size_empty; lia | done].
  unfold universe. apply elem_of_list_to_set. by left.
Qed.

(** How a resolution ends at an asset within the boundary that it does not
    leave through a re-export. *)
Lemma resolveSymbol_inside asset symbol node :
  outside boundary asset = false →
  graph !! asset = Some node →
  let r := resolveSymbol graph boundary asset symbol in
  (symbols node = Cleared → r = answer asset symbol BailOut)
  ∧ (∀ table binding,
       symbols node = Exports table → table !! symbol = Some binding →
       r = answer asset symbol (Resolved binding))
  ∧ (∀ table dep imported rest,
       symbols node = Exports table → table !! symbol = None →
       reexports node symbol = (dep, imported) :: rest →
       skipped dep = true →
       r = answer asset symbol Skipped)
  ∧ (∀ table,
       symbols node = Exports table → table !! symbol = None →
       reexports node symbol = [] →
       r = answer asset symbol NotFound).
Proof.
  intros Hin Hnode r.
  pose proof (resolveSymbol_fuel asset symbol) as Hfuel. fold r in Hfuel.
  simpl in Hfuel. rewrite Hin, Hnode in Hfuel.
  repeat split.
  - intros Hcleared. rewrite Hcleared in Hfuel. by injection Hfuel.
  - intros table binding Htable Hsymbol.
    rewrite Htable, Hsymbol in Hfuel. by injection Hfuel.
  - intros table dep imported rest Htable Hsymbol Hre Hskipped.
    rewrite Htable, Hsymbol, Hre in Hfuel. simpl in Hfuel.
    rewrite Hskipped in Hfuel. by injection Hfuel.
  - intros table Htable Hsymbol Hre.
    rewrite Htable, Hsymbol, Hre in Hfuel. by injection Hfuel.
Qed.

Lemma outside_bundle (bundle : gset string) asset :
  outside (Some bundle) asset = true ↔ asset ∉ bundle.
Proof. unfold outside. by rewrite bool_decide_eq_true. Qed.

(** Following a re-export into an asset outside the boundary ends the
    resolution there. *)
Lemma resolveSymbol_leaves asset symbol node table dep imported rest target :
  outside boundary asset = false →
  graph !! asset = Some node →
  symbols node = Exports table →
  table !! symbol = None →
  reexports node symbol = (dep, imported) :: rest →
  skipped dep = false →
  resolution dep = Some target →
  outside boundary target = true →
  resolveSymbol graph boundary asset symbol = answer target imported NotFound.
Proof.
  intros Hin Hnode Htable Hsymbol Hre Hskipped Hres Hout.
  pose proof (resolveSymbol_fuel asset symbol) as Hfuel.
  simpl in Hfuel.
  rewrite Hin, Hnode, Htable, Hsymbol, Hre in Hfuel. simpl in Hfuel.
  rewrite Hskipped, Hres in Hfuel.
  destruct (resolveSymbolFrom_total asset symbol
              (size (universe graph asset symbol))
              ({[(asset, symbol)]} ∪ ∅) target imported) as [r Hr].
  - apply union_subseteq. split; [| done].
    apply singleton_subseteq_l, elem_of_list_to_set. by left.
  - apply elem_of_list_to_set. right.
    eapply reexports_queries; [done | | done]. rewrite Hre. by left.
  - rewrite size_union by (apply disjoint_singleton_l, not_elem_of_empty).
    rewrite size_singleton, size_empty. lia.
  - rewrite Hr in Hfuel.
    destruct (size (universe graph asset symbol)) as [| n]; [done |].
    simpl in Hr. rewrite Hout in Hr. injection Hr as <-.
    unfold notFoundInside in Hfuel. simpl in Hfuel. rewrite Hout in Hfuel.
    simpl in Hfuel. by injection Hfuel as <-.
Qed.
(** More fuel does not change a resolution that has ended. *)
Lemma follow_mono recurse recurse' asset symbol candidates r :
  (∀ target imported r',
     recurse target imported = Some r' → recurse' target imported = Some r') →
  follow boundary recurse asset symbol candidates = Some r →
  follow boundary recurse' asset symbol candidates = Some r.
Proof.
  intros Hrec.
  induction candidates as [| [dep imported] rest IH]; simpl; [done |].
  destruct (skipped dep); [done |].
  destruct (resolution dep) as [target |]; [| done].
  destruct (recurse target imported) as [r' |] eqn:Er; [| done].
  rewrite (Hrec _ _ _ Er).
  by destruct (notFoundInside boundary r').
Qed.

Lemma resolveSymbolFrom_mono fuel : ∀ fuel' visited asset symbol r,
  (fuel ≤ fuel')%nat →
  resolveSymbolFrom graph boundary fuel visited asset symbol = Some r →
  resolveSymbolFrom graph boundary fuel' visited asset symbol = Some r.
Proof.
  induction fuel as [| fuel IH]; intros fuel' visited asset symbol r Hle;
    [done |].
  destruct fuel' as [| fuel']; [lia |]. simpl.
  destruct (outside boundary asset); [done |].
  destruct (bool_decide ((asset, symbol) ∈ visited)); [done |].
  destruct (graph !! asset) as [node |]; [| done].
  destruct (symbols node) as [| table]; [done |].
  destruct (table !! symbol); [done |].
  apply follow_mono. intros target imported r'. apply IH. lia.
Qed.

(** The traversal with its calls is the traversal. *)
Lemma followCalls_follow recurse recurse' asset symbol candidates :
  (∀ target imported,
     fst <$> recurse' target imported = recurse target imported) →
  fst <$> followCalls boundary recurse' asset symbol candidates
  = follow boundary recurse asset symbol candidates.
Proof.
  intros Hrec.
  induction candidates as [| [dep imported] rest IH]; simpl; [done |].
  destruct (skipped dep); [done |].
  destruct (resolution dep) as [target |]; [| done].
  rewrite <- Hrec.
  destruct (recurse' target imported) as [[r' calls'] |]; simpl; [| done].
  destruct (notFoundInside boundary r'); [| done].
  rewrite <- IH.
  by destruct (followCalls boundary recurse' asset symbol rest) as [[] |].
Qed.

Lemma resolveSymbolCalls_resolveSymbolFrom fuel : ∀ visited asset symbol,
  fst <$> resolveSymbolCalls graph boundary fuel visited asset symbol
  = resolveSymbolFrom graph boundary fuel visited asset symbol.
Proof.
  induction fuel as [| fuel IH]; intros visited asset symbol; simpl;
    [done |].
  destruct (outside boundary asset); [done |].
  destruct (bool_decide ((asset, symbol) ∈ visited)); [done |].
  destruct (graph !! asset) as [node |]; [| done].
  destruct (symbols node) as [| table]; [done |].
  destruct (table !! symbol); [done |].
  rewrite <- (followCalls_follow _
                (resolveSymbolCalls graph boundary fuel
                   ({[(asset, symbol)]} ∪ visited))) by (intros; apply IH).
  by destruct (followCalls _ _ _ _ _) as [[] |].
Qed.

(** A call on an asset outside the boundary ends the resolution: the
    result names that asset and says not found. *)
Lemma followCalls_outside recurse asset symbol candidates :
  (∀ target imported r trace,
     recurse target imported = Some (r, trace) →
     ∀ a s, (a, s) ∈ trace → outside boundary a = true →
            r = answer a s NotFound) →
  ∀ r trace,
    followCalls boundary recurse asset symbol candidates = Some (r, trace) →
    ∀ a s, (a, s) ∈ trace → outside boundary a = true →
           r = answer a s NotFound.
Proof.
  intros Hrec.
  induction candidates as [| [dep imported] rest IH]; simpl; intros r trace.
  { intros [= <- <-] a s Hin. by apply elem_of_nil in Hin. }
  destruct (skipped dep).
  { intros [= <- <-] a s Hin. by apply elem_of_nil in Hin. }
  destruct (resolution dep) as [target |]; [| apply IH].
  destruct (recurse target imported) as [[r1 trace1] |] eqn:Er; [| done].
  destruct (notFoundInside boundary r1) eqn:Hinside.
  - destruct (followCalls boundary recurse asset symbol rest)
      as [[r2 trace2] |] eqn:Erest; [| done].
    intros [= <- <-] a s [Hin | Hin]%elem_of_app Hout.
    + rewrite (Hrec _ _ _ _ Er a s Hin Hout) in Hinside.
      unfold notFoundInside in Hinside. simpl in Hinside.
      by rewrite Hout in Hinside.
    + by eapply IH.
  - intros [= <- <-]. by eapply Hrec.
Qed.

Lemma resolveSymbolCalls_outside fuel : ∀ visited asset symbol r trace,
  resolveSymbolCalls graph boundary fuel visited asset symbol
  = Some (r, trace) →
  ∀ a s, (a, s) ∈ trace → outside boundary a = true →
         r = answer a s NotFound.
Proof.
  induction fuel as [| fuel IH]; intros visited asset symbol r trace; simpl;
    [done |].
  destruct (outside boundary asset) eqn:Hout.
  { by intros [= <- <-] a s [= -> ->]%list_elem_of_singleton. }
  assert (∀ r', Some (r', [(asset, symbol)]) = Some (r, trace) →
                ∀ a s, (a, s) ∈ trace → outside boundary a = true →
                       r = answer a s NotFound) as Hleaf.
  { intros r' [= <- <-] a s [= -> ->]%list_elem_of_singleton. congruence. }
  destruct (bool_decide ((asset, symbol) ∈ visited)); [apply Hleaf |].
  destruct (graph !! asset) as [node |]; [| apply Hleaf].
  destruct (symbols node) as [| table]; [apply Hleaf |].
  destruct (table !! symbol); [apply Hleaf |].
  destruct (followCalls _ _ _ _ _) as [[r1 trace1] |] eqn:Efollow; [| done].
  intros [= <- <-] a s [[= -> ->] | Hin]%elem_of_cons Hout'; [congruence |].
  eapply followCalls_outside; [| exact Efollow | exact Hin | exact Hout'].
  intros target imported r' trace'. apply IH.
Qed.

Lemma resolveSymbol_calls asset symbol a s :
  (a, s) ∈ calls graph boundary asset symbol →
  outside boundary a = true →
  resolveSymbol graph boundary asset symbol = answer a s NotFound.
Proof.
  unfold calls. intros Hin Hout.
  pose proof (resolveSymbol_fuel asset symbol) as Hfuel.
  rewrite <- resolveSymbolCalls_resolveSymbolFrom in Hfuel.
  destruct (resolveSymbolCalls graph boundary
              (S (size (universe graph asset symbol))) ∅ asset symbol)
    as [[r trace] |] eqn:Ecalls; [| done].
  injection Hfuel as <-.
  by eapply resolveSymbolCalls_outside.
Qed.

(** A resolution calls itself on the pair it starts from. *)
Lemma calls_start asset symbol :
  (asset, symbol) ∈ calls graph boundary asset symbol.
Proof.
  unfold calls.
  pose proof (resolveSymbol_fuel asset symbol) as Hfuel.
  rewrite <- resolveSymbolCalls_resolveSymbolFrom in Hfuel.
  revert Hfuel. simpl.
  destruct (outside boundary asset); [intros _; by left |].
  destruct (bool_decide ((asset, symbol) ∈ ∅)); [intros _; by left |].
  destruct (graph !! asset) as [node |]; [| intros _; by left].
  destruct (symbols node) as [| table]; [intros _; by left |].
  destruct (table !! symbol); [intros _; by left |].
  destruct (followCalls _ _ _ _ _) as [[r trace] |]; [| done].
  intros _. by left.
Qed.

(** A chain of re-exports that leaves the boundary is followed to its
    end, however long it is. *)
Lemma resolveSymbolFrom_leadsTo final path : ∀ start visited,
  leadsTo graph boundary start path final →
  outside boundary final.1 = true →
  NoDup (start :: path) →
  (∀ p, p ∈ start :: path → p ∉ visited) →
  resolveSymbolFrom graph boundary (S (S (List.length path))) visited
                    start.1 start.2
  = Some (answer final.1 final.2 NotFound).
Proof.
  assert (∀ fuel visited (start next : string * string) r,
            handsOn graph boundary start next →
            start ∉ visited →
            resolveSymbolFrom graph boundary fuel
              ({[start]} ∪ visited) next.1 next.2 = Some r →
            outside boundary (SymbolResolution.asset r) = true →
            resolveSymbolFrom graph boundary (S fuel) visited start.1 start.2
            = Some r) as Hstep.
  { intros fuel visited [asset symbol] [target imported] r
      (Hin & node & table & dep & rest & Hnode & Htable & Hsymbol & Hre
       & Hskipped & Hres) Hfresh Hr Hout.
    simpl in *. rewrite Hin, Hnode, Htable, Hsymbol, Hre.
    rewrite bool_decide_eq_false_2 by done. simpl.
    rewrite Hskipped, Hres, Hr.
    unfold notFoundInside. rewrite Hout.
    by destruct (SymbolResolution.symbol r). }
  induction path as [| next path IH]; intros start visited Hchain Hout
    Hdistinct Hfresh.
  - apply (Hstep _ _ _ final); [done | apply Hfresh; by left | | done].
    simpl. by rewrite Hout.
  - destruct Hchain as [Hhands Hchain].
    apply NoDup_cons in Hdistinct as [Hstart Hdistinct].
    apply (Hstep _ _ _ next); [done | apply Hfresh; by left | | done].
    apply IH; [done | done | done |].
    intros p Hp [->%elem_of_singleton | Hvisited]%elem_of_union; [done |].
    apply (Hfresh p); [by right | done].
Qed.

Lemma resolveSymbol_leadsTo start path final :
  leadsTo graph boundary start path final →
  outside boundary final.1 = true →
  NoDup (start :: path) →
  resolveSymbol graph boundary start.1 start.2
  = answer final.1 final.2 NotFound.
Proof.
  intros Hchain Hout Hdistinct.
  pose proof (resolveSymbolFrom_leadsTo final path start ∅ Hchain Hout
                Hdistinct (λ p _, not_elem_of_empty p)) as Hshort.
  pose proof (resolveSymbol_fuel start.1 start.2) as Hfuel.
  set (fuel := S (S (List.length path))) in *.
  set (fuel' := S (size (universe graph start.1 start.2))) in *.
  apply (resolveSymbolFrom_mono _ (Nat.max fuel fuel')) in Hshort; [| lia].
  apply (resolveSymbolFrom_mono _ (Nat.max fuel fuel')) in Hfuel; [| lia].
  congruence.
Qed.
End SymbolFacts.

(** C6. The field [symbol] of a result tells the four ways a resolution
    ends apart: it is a symbol when the symbol is resolved, [null] for a
    bailout, [undefined] when the symbol is not found and [false] when it is
    skipped, and no two of the four ever share a value, so that a bailout is
    never taken for a symbol that is not found. [resolveSymbol] ends in each
    of the four ways with the value that stands for it: at an asset whose
    table is cleared, at an asset that declares the symbol, at a skipped
    re-export, and at an asset with neither. And for a boundary bundle:
    a resolution that starts at an asset outside the bundle, or that
    follows a re-export into an asset outside the bundle, ends with
    [symbol] undefined and with that asset in the field [asset]; no
    result names an asset outside the bundle with a [symbol] other than
    undefined; a chain of re-exports of any length that leaves the bundle
    is followed to the asset where it leaves, which the result then names
    with [symbol] undefined; and whenever the traversal calls the
    resolution on an asset outside the bundle, the pair it starts from
    included, the result names that asset, with the symbol looked up
    there, and has [symbol] undefined. The traversal with its calls
    returns what the traversal returns. *)
Theorem resolveSymbol_sentinels_and_boundary :
  ((∀ binding, sentinel (Resolved binding) = SymbolName binding)
   ∧ sentinel BailOut = SymbolNull
   ∧ sentinel NotFound = SymbolUndefined
   ∧ sentinel Skipped = SymbolFalse)
  ∧ (∀ o1 o2, sentinel o1 = sentinel o2 → o1 = o2)
  ∧ sentinel BailOut ≠ sentinel NotFound
  ∧ (∀ (graph : gmap string SymbolGraph.AssetNode)
       (boundary : option (gset string)) (asset symbol : string) node,
       let r := SymbolGraph.resolveSymbol graph boundary asset symbol in
       SymbolGraph.outside boundary asset = false →
       graph !! asset = Some node →
       (SymbolGraph.symbols node = SymbolGraph.Cleared →
        r = SymbolGraph.answer asset symbol BailOut)
       ∧ (∀ table binding,
            SymbolGraph.symbols node = SymbolGraph.Exports table →
            table !! symbol = Some binding →
            r = SymbolGraph.answer asset symbol (Resolved binding))
       ∧ (∀ table dep imported rest,
            SymbolGraph.symbols node = SymbolGraph.Exports table →
            table !! symbol = None →
            SymbolGraph.reexports node symbol = (dep, imported) :: rest →
            SymbolGraph.skipped dep = true →
            r = SymbolGraph.answer asset symbol Skipped)
       ∧ (∀ table,
            SymbolGraph.symbols node = SymbolGraph.Exports table →
            table !! symbol = None →
            SymbolGraph.reexports node symbol = [] →
            r = SymbolGraph.answer asset symbol NotFound))
  ∧ (∀ (graph : gmap string SymbolGraph.AssetNode) (bundle : gset string)
       (asset symbol : string),
      let r := SymbolGraph.resolveSymbol graph (Some bundle) asset symbol in
      (asset ∉ bundle →
       SymbolResolution.asset r = asset
       ∧ SymbolResolution.symbol r = SymbolUndefined)
      ∧ (∀ node table dep imported rest target,
           asset ∈ bundle →
           graph !! asset = Some node →
           SymbolGraph.symbols node = SymbolGraph.Exports table →
           table !! symbol = None →
           SymbolGraph.reexports node symbol = (dep, imported) :: rest →
           SymbolGraph.skipped dep = false →
           SymbolGraph.resolution dep = Some target →
           target ∉ bundle →
           SymbolResolution.asset r = target
           ∧ SymbolResolution.symbol r = SymbolUndefined)
      ∧ (SymbolResolution.asset r ∉ bundle →
         SymbolResolution.symbol r = SymbolUndefined)
      ∧ (∀ path target imported,
           SymbolGraph.leadsTo graph (Some bundle) (asset, symbol) path
                               (target, imported) →
           NoDup ((asset, symbol) :: path) →
           target ∉ bundle →
           r = SymbolGraph.answer target imported NotFound)
      ∧ (asset, symbol) ∈ SymbolGraph.calls graph (Some bundle) asset symbol
      ∧ (∀ target imported,
           (target, imported)
             ∈ SymbolGraph.calls graph (Some bundle) asset symbol →
           target ∉ bundle →
           r = SymbolGraph.answer target imported NotFound))
  ∧ ∀ (graph : gmap string SymbolGraph.AssetNode)
      (boundary : option (gset string)) fuel visited (asset symbol : string),
      fst <$> SymbolGraph.resolveSymbolCalls graph boundary fuel visited
                                             asset symbol
      = SymbolGraph.resolveSymbolFrom graph boundary fuel visited
                                      asset symbol.
Proof.
  split; [done |]. split; [apply sentinel_inj |]. split; [done |].
  split.
  { intros graph boundary asset symbol node r Hin Hnode.
    by apply resolveSymbol_inside. }
  split; [| intros; apply resolveSymbolCalls_resolveSymbolFrom].
  intros graph bundle asset symbol r.
  pose proof (resolveSymbol_fuel graph (Some bundle) asset symbol) as Hfuel.
  fold r in Hfuel. split; [| split; [| split; [| split; [| split]]]].
  - intros Hout. simpl in Hfuel.
    rewrite (bool_decide_eq_true_2 _ Hout) in Hfuel.
    by injection Hfuel as <-.
  - intros node table dep imported rest target Hin Hnode Htable Hsymbol Hre
      Hskipped Hres Hout%outside_bundle.
    subst r.
    rewrite (resolveSymbol_leaves graph (Some bundle) asset symbol node table
               dep imported rest target); try done.
    apply bool_decide_eq_false. by intros Hn.
  - intros Hout%outside_bundle.
    by apply (resolveSymbolFrom_undefinedOutside graph (Some bundle) _ _ _ _ _
                Hfuel).
  - intros path target imported Hchain Hdistinct Hout%outside_bundle.
    by apply (resolveSymbol_leadsTo graph (Some bundle) (asset, symbol) path
                (target, imported)).
  - apply calls_start.
  - intros target imported Hcall Hout%outside_bundle.
    by apply resolveSymbol_calls.
Qed.

Example resolveSymbol_sample_resolved :
  SymbolGraph.resolveSymbol Sample.symbolGraph None "A" "x"
  = SymbolGraph.answer "B" "x" (Resolved "x$B").
Proof. vm_compute. reflexivity. Qed.

Example resolveSymbol_sample_cycle :
  SymbolGraph.resolveSymbol
    (<["B" :=
         {| SymbolGraph.symbols := SymbolGraph.Exports ∅;
            SymbolGraph.dependencies :=
              [ {| SymbolGraph.imports := {[ "x" := ("x", true) ]};
                   SymbolGraph.resolution := Some "A";
                   SymbolGraph.skipped := false |} ] |}]> Sample.symbolGraph)
    None "A" "x"
  = SymbolGraph.answer "A" "x" NotFound.
Proof. vm_compute. reflexivity. Qed.

Example resolveSymbol_sample_chain :
  SymbolGraph.resolveSymbol Sample.symbolChain (Some Sample.bundleAB) "A" "x"
  = SymbolGraph.answer "C" "z" NotFound
  ∧ SymbolGraph.calls Sample.symbolChain (Some Sample.bundleAB) "A" "x"
    = [("A", "x"); ("B", "y"); ("C", "z")]
  ∧ SymbolGraph.resolveSymbol Sample.symbolChain None "A" "x"
    = SymbolGraph.answer "C" "z" (Resolved "z$C").
Proof. vm_compute. repeat split; reflexivity. Qed.

Lemma resolveSymbol_sentinels_and_boundary_witness :
  let r :=
    SymbolGraph.resolveSymbol Sample.symbolChain (Some Sample.bundleAB)
                              "A" "x" in
  NoDup [("A", "x"); ("B", "y")]
  ∧ ("C" ∉ Sample.bundleAB)
  ∧ r = SymbolGraph.answer "C" "z" NotFound.
Proof.
  intros r.
  assert (NoDup [("A", "x"); ("B", "y")]) as Hdistinct.
  { apply NoDup_cons. split; [| apply NoDup_singleton].
    intros Hin%list_elem_of_singleton. discriminate Hin. }
  assert ("C" ∉ Sample.bundleAB) as HC.
  { unfold Sample.bundleAB.
    intros [Hin | Hin]%elem_of_union; apply elem_of_singleton in Hin;
      discriminate Hin. }
  split; [exact Hdistinct |]. split; [exact HC |].
  destruct resolveSymbol_sentinels_and_boundary
    as (_ & _ & _ & _ & Hboundary & _).
  destruct (Hboundary Sample.symbolChain Sample.bundleAB "A" "x")
    as (_ & _ & _ & Hchain & _).
  apply (Hchain [("B", "y")] "C" "z"); [| exact Hdistinct | exact HC].
  split; (split; [reflexivity |]);
    eexists _, _, _, _; repeat split; reflexivity.
Defined.

Example transform_sample :
  @transform Sample.collaborators Sample.postcss Sample.mutableAsset (Some tt)
  = (Ok [TheAsset], Sample.transformedAsset).
Proof. reflexivity. Qed.

Lemma transform_records_invalidations_witness :
  @loadPostcss Sample.collaborators Sample.postcss "src/a.pcss" = Ok tt
  ∧ @MutableAsset.ast Sample.collaborators Sample.mutableAsset = Some "a{}"
  ∧ @process Sample.collaborators Sample.postcss tt "a{}"
    = Ok ([Sample.importMessage; Sample.dirMessage], "a{}", None)
  ∧ ∃ results asset',
      @transform Sample.collaborators Sample.postcss Sample.mutableAsset
        (Some tt)
      = (Ok results, asset')
      ∧ "src/vars.css" ∈ MutableAsset.fileChangeInvalidations asset'
      ∧ "src/icons/a.svg" ∈ MutableAsset.fileChangeInvalidations asset'
      ∧ GlobInvalidation "src/icons/**/*"
        ∈ MutableAsset.fileCreateInvalidations asset'.
Proof.
  split; [reflexivity |]. split; [reflexivity |]. split; [reflexivity |].
  destruct (@transform_records_invalidations Sample.collaborators
              Sample.postcss Sample.mutableAsset tt "a{}"
              [Sample.importMessage; Sample.dirMessage] "a{}" None
              eq_refl eq_refl eq_refl)
    as (results & asset' & Htransform & Hmessages).
  exists results, asset'. split; [exact Htransform |].
  destruct (Hmessages Sample.importMessage) as [Himport _]; [by left |].
  destruct (Hmessages Sample.dirMessage) as [_ Hdir]; [by (right; left) |].
  destruct (Hdir eq_refl) as [Hfiles Hglob].
  split; [exact (Himport eq_refl) |].
  split; [| exact Hglob].
  apply (Hfiles "src/icons/./a.svg"). by left.
Defined.

(** * Further properties of [getInvalidationId] and [getInvalidationHash] *)

Section InvalidationMore.
Context `{Collaborators}.
Implicit Types (a b i : RequestInvalidation.t).
Implicit Types (l s : list RequestInvalidation.t).
Implicit Types (cache : gmap string (result string)).
Implicit Types (options : ParcelOptions.t).

(** X1. The id tells the invalidations of known types apart: two of them
    with the same id have the same type, and the same file path when they
    are file invalidations, the same key otherwise. *)
Theorem getInvalidationId_inj a b id :
  getInvalidationId a = Ok id →
  getInvalidationId b = Ok id →
  RequestInvalidation.type a = RequestInvalidation.type b
  ∧ (RequestInvalidation.type a = "file" →
     RequestInvalidation.filePath a = RequestInvalidation.filePath b)
  ∧ (RequestInvalidation.type a ≠ "file" →
     RequestInvalidation.key a = RequestInvalidation.key b).
Proof.
  unfold getInvalidationId.
  destruct (String.eqb_spec (RequestInvalidation.type a) "file") as [Ha | Ha];
    [| destruct (String.eqb_spec (RequestInvalidation.type a) "env")
         as [Ha' | Ha'];
       [| destruct (String.eqb_spec (RequestInvalidation.type a) "option")
            as [Ha'' | Ha'']]];
    (destruct (String.eqb_spec (RequestInvalidation.type b) "file")
       as [Hb | Hb];
     [| destruct (String.eqb_spec (RequestInvalidation.type b) "env")
          as [Hb' | Hb'];
        [| destruct (String.eqb_spec (RequestInvalidation.type b) "option")
             as [Hb'' | Hb'']]]);
    intros [= <-] Hid; try discriminate Hid;
    injection Hid as Hid; simplify_eq;
    repeat split; congruence.
Qed.

(** X2. For a list of invalidations of known types that is not empty and
    whose files can all be hashed (the promise held for the path, or else
    the one of [hashFile], is fulfilled), [getInvalidationHash] returns the
    hash of what the entries contribute, joined in ascending order of their
    ids; and it leaves a hash cache that holds what it held before and, for
    each file entry whose path it did not hold, the promise of
    [hashFile]. *)
Theorem getInvalidationHash_success l options cache :
  l ≠ [] →
  Forall knownType l →
  (∀ path, path ∈ filePaths l →
           is_Some (returned (fileHash (ParcelOptions.inputFS options)
                                       cache path))) →
  ∃ s parts cache',
    s ≡ₚ l
    ∧ StronglySorted String.le (invalidationId <$> s)
    ∧ contribution options cache <$> s = Ok <$> parts
    ∧ getInvalidationHash l options cache
      = (Ok (hashString (concatenated parts)), cache')
    ∧ ∀ p, cache' !! p
           = cachedAfter (ParcelOptions.inputFS options) l cache p.
Proof.
  intros Hne Hl Hfiles.
  destruct (getInvalidationHash_known l options cache Hne Hl)
    as (s & cache' & Hperm & Hsorted & Hcall & Hgains & Hheld & _).
  destruct (contributions_Ok options cache s) as (parts & Hparts).
  { intros p Hp. apply Hfiles. by apply (filePaths_perm _ _ Hperm). }
  rewrite Hparts, joined_Ok in Hcall, Hheld.
  exists s, parts, cache'. split; [done |]. split; [done |].
  split; [done |]. split; [done |].
  apply gains_cachedAfter; [done |]. apply Hheld. by eexists.
Qed.

(** X3. A call of [getInvalidationHash] that throws does one of two
    things. When an entry has an unknown type, it throws the error for
    such an entry and leaves the hash cache as it found it, also when file
    entries sort before that entry. When every entry has a known type, it
    throws what the promise of a listed file was rejected with; the hash
    cache then holds that rejected promise under the path of the file, and
    has otherwise gained promises of [hashFile] for listed paths only. *)
Theorem getInvalidationHash_Throw_cache l options cache msg cache' :
  getInvalidationHash l options cache = (Throw msg, cache') →
  (cache' = cache
   ∧ ∃ j, j ∈ l
          ∧ RequestInvalidation.type j ≠ "file"
          ∧ RequestInvalidation.type j ≠ "env"
          ∧ RequestInvalidation.type j ≠ "option"
          ∧ msg = "Unknown invalidation type: " +:+ RequestInvalidation.type j)
  ∨ (Forall knownType l
     ∧ gains (ParcelOptions.inputFS options) (filePaths l) cache cache'
     ∧ ∃ j, j ∈ l
            ∧ RequestInvalidation.type j = "file"
            ∧ fileHash (ParcelOptions.inputFS options) cache
                       (RequestInvalidation.filePath j) = Throw msg
            ∧ cache' !! RequestInvalidation.filePath j = Some (Throw msg)).
Proof.
  intros Hthrow.
  destruct (decide (Forall knownType l)) as [Hl | Hl].
  - right. split; [done |].
    destruct l as [| x l]; [done |].
    destruct (getInvalidationHash_known (x :: l) options cache)
      as (s & c & _ & _ & Hcall & Hgains & _ & Hfile); [done | done |].
    rewrite Hthrow in Hcall.
    destruct (joined (contribution options cache <$> s)) as [hashes | msg'];
      [done |].
    injection Hcall as -> ->. split; [done |]. by apply Hfile.
  - left.
    apply not_Forall_Exists in Hl; [| intros i; apply knownType_dec].
    apply Exists_exists in Hl as (i & Hi & Hn).
    destruct (getInvalidationHash_unknown l options cache i Hi Hn)
      as (j & Hj & Hnj & Hcall).
    rewrite Hthrow in Hcall. injection Hcall as -> ->.
    split; [done |]. exists j. unfold knownType in Hnj.
    repeat split; [done | tauto | tauto | tauto].
Qed.

(** Whatever the entry, a turn adds to the cache at most the promise of
    its file. *)
Lemma hashInvalidation_gains options hashes i cache :
  gains (ParcelOptions.inputFS options) (filePaths [i]) cache
        (hashInvalidation options hashes i cache).2.
Proof.
  destruct (knownType_dec i) as [Hk | Hk].
  - by destruct (hashInvalidation_known options hashes i cache Hk)
      as (c & -> & Hgains & _).
  - rewrite hashInvalidation_unknown by done. apply gains_refl.
Qed.

Lemma hashInvalidations_gains options s : ∀ hashes cache,
  gains (ParcelOptions.inputFS options) (filePaths s) cache
        (hashInvalidations options hashes s cache).2.
Proof.
  induction s as [| i s IH]; intros hashes cache; cbn [hashInvalidations].
  { apply gains_refl. }
  pose proof (hashInvalidation_gains options hashes i cache) as Hgains1.
  change (filePaths (i :: s)) with (filePaths ([i] ++ s)).
  rewrite filePaths_app.
  destruct (hashInvalidation options hashes i cache) as [[hashes' | msg] c].
  - eapply gains_trans; [done | apply IH].
  - eapply gains_paths; [| done]. intros p Hp. apply elem_of_app. by left.
Qed.

(** A turn over a cache that already holds what the turn would add, and
    that is awaited as the first cache is, returns the same and adds
    nothing. *)
Lemma hashInvalidation_again options hashes i cache c :
  (∀ p promise,
     (hashInvalidation options hashes i cache).2 !! p = Some promise →
     c !! p = Some promise) →
  hashInvalidation options hashes i c
  = ((hashInvalidation options hashes i cache).1, c).
Proof.
  unfold hashInvalidation.
  destruct (String.eqb (RequestInvalidation.type i) "file").
  - destruct (cache !! RequestInvalidation.filePath i) as [h |] eqn:Eh;
      simpl; intros Hheld.
    + by rewrite (Hheld _ _ Eh).
    + by rewrite (Hheld _ _ (lookup_insert_eq _ _ _)).
  - destruct (String.eqb (RequestInvalidation.type i) "env"); [done |].
    by destruct (String.eqb (RequestInvalidation.type i) "option").
Qed.

Lemma hashInvalidations_again options s : ∀ hashes cache c,
  (∀ p promise,
     (hashInvalidations options hashes s cache).2 !! p = Some promise →
     c !! p = Some promise) →
  hashInvalidations options hashes s c
  = ((hashInvalidations options hashes s cache).1, c).
Proof.
  induction s as [| i s IH]; intros hashes cache c; [done |].
  cbn [hashInvalidations]. intros Hheld.
  rewrite (hashInvalidation_again options hashes i cache c).
  - destruct (hashInvalidation options hashes i cache)
      as [[hashes' | msg] c1]; [| done].
    by apply IH.
  - intros p promise Hp. apply Hheld.
    destruct (hashInvalidation options hashes i cache)
      as [[hashes' | msg] c1]; [| done].
    by eapply gains_lookup; [apply hashInvalidations_gains |].
Qed.

(** X4. A second call of [getInvalidationHash] with the same invalidations
    and options, from the cache that the first call left, returns what the
    first call returned, a rejection of a file promise included, and
    leaves that cache as it is. *)
Theorem getInvalidationHash_again l options cache :
  getInvalidationHash l options (getInvalidationHash l options cache).2
  = getInvalidationHash l options cache.
Proof.
  unfold getInvalidationHash.
  destruct (length l =? 0)%nat; [done |].
  destruct (sort compareInvalidations l) as [s | msg]; [| done].
  pose proof (hashInvalidations_again options s "" cache
                (hashInvalidations options "" s cache).2) as Hagain.
  destruct (hashInvalidations options "" s cache) as [[hashes | msg] c];
    simpl in *; by rewrite Hagain.
Qed.

Lemma hashInvalidations_frame options1 options2 s : ∀ hashes cache,
  (∀ i, i ∈ s → RequestInvalidation.type i = "file" →
        cache !! RequestInvalidation.filePath i = None →
        hashFile (ParcelOptions.inputFS options1)
                 (RequestInvalidation.filePath i)
        = hashFile (ParcelOptions.inputFS options2)
                   (RequestInvalidation.filePath i)) →
  (∀ i, i ∈ s → RequestInvalidation.type i = "env" →
        default "" (ParcelOptions.env options1 !! RequestInvalidation.key i)
        = default "" (ParcelOptions.env options2 !! RequestInvalidation.key i)) →
  (∀ i, i ∈ s → RequestInvalidation.type i = "option" →
        hashFromOption (ParcelOptions.get options1 (RequestInvalidation.key i))
        = hashFromOption
            (ParcelOptions.get options2 (RequestInvalidation.key i))) →
  hashInvalidations options1 hashes s cache
  = hashInvalidations options2 hashes s cache.
Proof.
  induction s as [| i s IH]; intros hashes cache Hfile Henv Hoption;
    [done |].
  cbn [hashInvalidations].
  assert (hashInvalidation options1 hashes i cache
          = hashInvalidation options2 hashes i cache) as Hstep.
  { unfold hashInvalidation.
    destruct (String.eqb_spec (RequestInvalidation.type i) "file") as [Hi | _].
    { destruct (cache !! RequestInvalidation.filePath i) eqn:Eh; [done |].
      by rewrite (Hfile i) by (done || by left). }
    destruct (String.eqb_spec (RequestInvalidation.type i) "env") as [Hi | _].
    { by rewrite (Henv i) by (done || by left). }
    destruct (String.eqb_spec (RequestInvalidation.type i) "option")
      as [Hi | _]; [| done].
    by rewrite (Hoption i) by (done || by left). }
  rewrite Hstep.
  pose proof (hashInvalidation_gains options2 hashes i cache) as Hgains.
  destruct (hashInvalidation options2 hashes i cache) as [[hashes' | msg] c];
    [| done].
  apply IH.
  - intros j Hj Htype Hnone. apply Hfile; [by right | done |].
    destruct (Hgains (RequestInvalidation.filePath j)) as [E | (E & _)];
      simpl in *; congruence.
  - intros j Hj. apply Henv. by right.
  - intros j Hj. apply Hoption. by right.
Qed.

(** X5. The result of [getInvalidationHash], digest and cache, depends on
    the options only through what the entries name: the hashes of the
    listed files that the cache does not hold, the values of the listed
    environment variables, read as the empty string when they are not set,
    and the hashes of the listed options. The file system is not looked at
    for a file that the cache holds. *)
Theorem getInvalidationHash_frame l options1 options2 cache :
  (∀ i, i ∈ l → RequestInvalidation.type i = "file" →
        cache !! RequestInvalidation.filePath i = None →
        hashFile (ParcelOptions.inputFS options1)
                 (RequestInvalidation.filePath i)
        = hashFile (ParcelOptions.inputFS options2)
                   (RequestInvalidation.filePath i)) →
  (∀ i, i ∈ l → RequestInvalidation.type i = "env" →
        default "" (ParcelOptions.env options1 !! RequestInvalidation.key i)
        = default "" (ParcelOptions.env options2 !! RequestInvalidation.key i)) →
  (∀ i, i ∈ l → RequestInvalidation.type i = "option" →
        hashFromOption (ParcelOptions.get options1 (RequestInvalidation.key i))
        = hashFromOption
            (ParcelOptions.get options2 (RequestInvalidation.key i))) →
  getInvalidationHash l options1 cache = getInvalidationHash l options2 cache.
Proof.
  intros Hfile Henv Hoption. unfold getInvalidationHash.
  destruct (length l =? 0)%nat; [done |].
  destruct (sort compareInvalidations l) as [s |] eqn:Es; [| done].
  apply sort_perm in Es.
  rewrite (hashInvalidations_frame options1 options2 s "" cache); [done | ..].
  - intros i Hi. apply Hfile. by rewrite <- Es.
  - intros i Hi. apply Henv. by rewrite <- Es.
  - intros i Hi. apply Hoption. by rewrite <- Es.
Qed.
End InvalidationMore.

Lemma getInvalidationId_inj_witness :
  @getInvalidationId Sample.fileA = Ok "file:a.css"
  ∧ @getInvalidationId Sample.fileAKeyed = Ok "file:a.css"
  ∧ RequestInvalidation.filePath Sample.fileA
    = RequestInvalidation.filePath Sample.fileAKeyed.
Proof.
  assert (@getInvalidationId Sample.fileA = Ok "file:a.css") as Ha
    by reflexivity.
  assert (@getInvalidationId Sample.fileAKeyed = Ok "file:a.css") as Hb
    by reflexivity.
  split; [exact Ha |]. split; [exact Hb |].
  exact (proj1 (proj2 (getInvalidationId_inj _ _ _ Ha Hb)) eq_refl).
Defined.

Lemma getInvalidationHash_success_witness :
  let l := [Sample.optionMode; Sample.envK; Sample.fileA] in
  l ≠ []
  ∧ Forall knownType l
  ∧ ∃ s parts cache',
      s ≡ₚ l
      ∧ @contribution Sample.collaborators Sample.parcelOptions ∅ <$> s
        = Ok <$> parts
      ∧ @getInvalidationHash Sample.collaborators l Sample.parcelOptions ∅
        = (Ok (concatenated parts), cache')
      ∧ cache' !! "a.css" = Some (Ok "body{}").
Proof.
  intros l.
  assert (l ≠ []) as Hne by discriminate.
  assert (Forall knownType l) as Hknown.
  { apply Forall_cons. split; [by right; right |].
    apply Forall_cons. split; [by right; left |].
    apply Forall_cons. split; [by left | constructor]. }
  assert (∀ path, path ∈ filePaths l →
            is_Some (returned
                       (@fileHash Sample.collaborators
                          (ParcelOptions.inputFS Sample.parcelOptions) ∅
                          path))) as Hfiles.
  { assert (filePaths l = ["a.css"]) as -> by reflexivity.
    intros path ->%list_elem_of_singleton. by eexists. }
  split; [exact Hne |]. split; [exact Hknown |].
  destruct (@getInvalidationHash_success Sample.collaborators l
              Sample.parcelOptions ∅ Hne Hknown Hfiles)
    as (s & parts & cache' & Hperm & _ & Hparts & Hresult & Hcache).
  exists s, parts, cache'. split; [exact Hperm |]. split; [exact Hparts |].
  split; [exact Hresult |].
  rewrite Hcache. reflexivity.
Defined.

Lemma getInvalidationHash_Throw_cache_witness :
  let l := [Sample.fileMissing; Sample.fileA] in
  let error := "ENOENT: no such file or directory, open gone.css" in
  let cache' := {["a.css" := Ok "body{}"; "gone.css" := Throw error]} in
  @getInvalidationHash Sample.collaborators l Sample.parcelOptions ∅
  = (Throw error, cache')
  ∧ ∃ j, j ∈ l
         ∧ RequestInvalidation.type j = "file"
         ∧ cache' !! RequestInvalidation.filePath j = Some (Throw error).
Proof.
  intros l error cache'.
  assert (@getInvalidationHash Sample.collaborators l Sample.parcelOptions ∅
          = (Throw error, cache')) as Hthrow
    by (vm_compute; reflexivity).
  split; [exact Hthrow |].
  destruct (@getInvalidationHash_Throw_cache Sample.collaborators l
              Sample.parcelOptions ∅ _ _ Hthrow)
    as [(_ & j & Hj & Hfile & _)
       | (_ & _ & j & Hj & Htype & _ & Hcached)].
  - repeat (apply elem_of_cons in Hj as [-> | Hj]);
      [by destruct Hfile | by destruct Hfile | by apply elem_of_nil in Hj].
  - exists j. split; [exact Hj |]. split; [exact Htype | exact Hcached].
Defined.

Example getInvalidationHash_again_sample :
  let l := [Sample.optionMode; Sample.envK; Sample.fileA] in
  @getInvalidationHash Sample.collaborators l Sample.parcelOptionsChanged
    (@getInvalidationHash Sample.collaborators l Sample.parcelOptions ∅).2
  = (Ok "K:body{}mode:production", {["a.css" := Ok "body{}"]}).
Proof. vm_compute. reflexivity. Qed.

Lemma getInvalidationHash_frame_witness :
  let l := [Sample.optionMode; Sample.envK; Sample.fileA] in
  @getInvalidationHash Sample.collaborators l Sample.parcelOptions
    Sample.warmCache
  = @getInvalidationHash Sample.collaborators l Sample.parcelOptionsChanged
      Sample.warmCache.
Proof.
  intros l.
  apply (@getInvalidationHash_frame Sample.collaborators l
           Sample.parcelOptions Sample.parcelOptionsChanged Sample.warmCache);
    intros i Hi Htype;
    repeat (apply elem_of_cons in Hi as [-> | Hi]);
    try discriminate Htype; try (by apply elem_of_nil in Hi).
  - intros Hnone. discriminate Hnone.
  - reflexivity.
  - reflexivity.
Defined.

(** * Further properties of [generateFromAST] *)

Section GenerationMore.
Context `{Collaborators} `{!PluginLoader}.
Implicit Types (asset : AssetWrapper) (st : State) (a : positive).

Lemma generateFromAST_fresh_settled asset st :
  generateResults st !! address (value asset) = None →
  ∃ p st',
    generateFromAST asset st = (p, st')
    ∧ Promise.settled p = (generateBody asset st).1
    ∧ cache st' = cache (generateBody asset st).2
    ∧ generateResults st' !! address (value asset) = Some p.
Proof.
  unfold generateFromAST, _generateFromAST. intros ->.
  destruct (generateBody_logs asset st) as (outcome & st' & Hbody & Hres & _).
  rewrite Hbody. simpl. do 2 eexists. split; [done |]. simpl.
  by rewrite lookup_insert_eq.
Qed.

(** X6. However the first call of [generateFromAST] for an asset value
    ends, with an output or with an error, every later call for that asset
    value returns the promise of the first call: a generation that failed
    is not tried again, whatever AST and options the later callers hold. *)
Theorem generateFromAST_settled_once cache first rest i other :
  (first :: rest) !! i = Some other →
  address (value other) = address (value first) →
  ∃ p,
    (generateAll (first :: rest) (initialState cache)).1 !! i = Some p
    ∧ Promise.settled p = (generateBody first (initialState cache)).1.
Proof.
  intros Hi Ha.
  rewrite (generateAll_outputs _ _ _ _ Hi), Ha. simpl.
  destruct (generateFromAST_fresh_settled first (initialState cache))
    as (p & st1 & Hcall & Hsettled & _ & Hstored); [done |].
  rewrite Hcall.
  pose proof (generateAll_address rest st1 (address (value first)))
    as (Hkeep & _).
  destruct (generateAll rest st1) as [ps st2]. simpl in *.
  exists p. split; [by apply Hkeep | done].
Qed.

(** X7. [generateFromAST] writes to the cache under the content key and the
    map key of the asset value only: every other key keeps what it held,
    however the generation ends. *)
Theorem generateFromAST_cache_frame asset st key :
  Asset.contentKey (fields (value asset)) ≠ Some key →
  Asset.mapKey (fields (value asset)) ≠ Some key →
  cache (generateFromAST asset st).2 !! key = cache st !! key.
Proof.
  intros Hcontent Hmap.
  assert (cache (generateBody asset st).2 !! key = cache st !! key) as Hbody.
  { unfold generateBody, bind, lift, ret, throw, nullthrows, logGenerate,
      cacheSet, cacheGetStream.
    destruct (getAST asset); simpl; [| done].
    destruct (Asset.plugin _); simpl; [| done].
    destruct (Asset.configPath _); simpl; [| done].
    destruct (Asset.configKeyPath _); simpl; [| done].
    destruct (loadPlugin _ _ _ _) as [plugin |]; simpl; [| done].
    destruct (generate plugin) as [g |]; simpl; [| done].
    destruct (g _ _ _) as [output |]; simpl; [| done].
    destruct (Asset.contentKey _) as [contentKey |]; simpl; [| done].
    assert (contentKey ≠ key) as Hck by congruence.
    destruct (GenerateOutput.map output); simpl.
    - destruct (Asset.mapKey _) as [mapKey |]; simpl;
        [| by rewrite lookup_insert_ne].
      assert (mapKey ≠ key) as Hmk by congruence.
      destruct (GenerateOutput.content output); simpl;
        by rewrite !lookup_insert_ne.
    - destruct (GenerateOutput.content output); simpl;
        by rewrite lookup_insert_ne. }
  unfold generateFromAST, _generateFromAST.
  destruct (generateResults st !! address (value asset)); [done |].
  by destruct (generateBody asset st).
Qed.

(** X8. What a generation stores can be read back. When the first call for
    an asset value gets an output from the plugin, and the asset value has
    a content key, and a map key other than the content key if the output
    has a map, then the promise is fulfilled with the bytes and the map of
    that output, the cache holds the bytes under the content key, and it
    holds the buffer of the map under the map key. *)
Theorem generateFromAST_stores asset st ast pluginName configPath
    configKeyPath plugin generateMethod output contentKey :
  generateResults st !! address (value asset) = None →
  getAST asset = Some ast →
  Asset.plugin (fields (value asset)) = Some pluginName →
  Asset.configPath (fields (value asset)) = Some configPath →
  Asset.configKeyPath (fields (value asset)) = Some configKeyPath →
  loadPlugin pluginName configPath configKeyPath (options asset) = Ok plugin →
  generate plugin = Some generateMethod →
  generateMethod (fields (value asset)) ast (options asset) = Ok output →
  Asset.contentKey (fields (value asset)) = Some contentKey →
  (∀ map, GenerateOutput.map output = Some map →
          ∃ mapKey, Asset.mapKey (fields (value asset)) = Some mapKey
                    ∧ mapKey ≠ contentKey) →
  ∃ stored,
    Promise.settled (generateFromAST asset st).1 = Ok stored
    ∧ blobBytes (GenerateOutput.content stored)
      = blobBytes (GenerateOutput.content output)
    ∧ GenerateOutput.map stored = GenerateOutput.map output
    ∧ cache (generateFromAST asset st).2 !! contentKey
      = Some (blobBytes (GenerateOutput.content output))
    ∧ ∀ map mapKey,
        GenerateOutput.map output = Some map →
        Asset.mapKey (fields (value asset)) = Some mapKey →
        cache (generateFromAST asset st).2 !! mapKey = Some (toBuffer map).
Proof.
  intros Hfresh Hast Hplugin Hpath Hkey Hload Hgenerate Hout Hcontent Hmap.
  destruct (generateFromAST_fresh_settled asset st Hfresh)
    as (p & st' & Hcall & Hsettled & Hcache & _).
  rewrite Hcall. simpl. rewrite Hsettled, Hcache. clear Hcall Hsettled Hcache.
  unfold generateBody, bind, lift, ret, throw, nullthrows, logGenerate,
    cacheSet, cacheGetStream.
  rewrite Hast, Hplugin, Hpath, Hkey. simpl.
  rewrite Hload. simpl. rewrite Hgenerate. simpl. rewrite Hout. simpl.
  rewrite Hcontent. simpl.
  destruct (GenerateOutput.map output) as [map |] eqn:Emap; simpl.
  - destruct (Hmap map eq_refl) as (mapKey & -> & Hne). simpl.
    destruct (GenerateOutput.content output) eqn:Econtent; simpl;
      (eexists; split; [done |]); simpl;
      rewrite ?lookup_insert_ne, ?lookup_insert_eq by done;
      (repeat split; [done.. |]);
      intros ? ? [= <-] [= <-]; by rewrite lookup_insert_eq.
  - destruct (GenerateOutput.content output) eqn:Econtent; simpl;
      (eexists; split; [done |]); simpl;
      rewrite ?lookup_insert_eq;
      by repeat split.
Qed.
End GenerationMore.

Lemma generateFromAST_settled_once_witness :
  ∃ p,
    (@generateAll Sample.collaborators Sample.pluginLoader
       [Sample.withoutAST; Sample.withAST] (initialState ∅)).1 !! 1%nat
    = Some p
    ∧ Promise.settled p = Throw "Asset has no AST".
Proof.
  destruct (@generateFromAST_settled_once Sample.collaborators
              Sample.pluginLoader ∅ Sample.withoutAST [Sample.withAST]
              1%nat Sample.withAST eq_refl eq_refl)
    as (p & Hp & Hsettled).
  exists p. split; [exact Hp | exact Hsettled].
Defined.

Lemma generateFromAST_cache_frame_witness :
  cache
    (@generateFromAST Sample.collaborators Sample.pluginLoader Sample.withAST
       (initialState {["other" := "kept"]})).2 !! "other"
  = Some "kept".
Proof.
  rewrite (@generateFromAST_cache_frame Sample.collaborators
             Sample.pluginLoader Sample.withAST
             (initialState {["other" := "kept"]}) "other");
    [reflexivity | discriminate | discriminate].
Defined.

Lemma generateFromAST_stores_witness :
  ∃ stored,
    Promise.settled
      (@generateFromAST Sample.collaborators Sample.streamingLoader
         Sample.withAST (initialState ∅)).1
    = Ok stored
    ∧ blobBytes (GenerateOutput.content stored) = "body{}"
    ∧ cache
        (@generateFromAST Sample.collaborators Sample.streamingLoader
           Sample.withAST (initialState ∅)).2 !! "content"
      = Some "body{}"
    ∧ cache
        (@generateFromAST Sample.collaborators Sample.streamingLoader
           Sample.withAST (initialState ∅)).2 !! "map"
      = Some "mappings".
Proof.
  destruct (@generateFromAST_stores Sample.collaborators
              Sample.streamingLoader Sample.withAST (initialState ∅)
              "body{}" "@parcel/transformer-postcss" ".parcelrc"
              "transformers" Sample.streamingPlugin
              (λ _ ast _, Ok (Sample.streamed ast))
              (Sample.streamed "body{}") "content")
    as (stored & Hsettled & Hbytes & _ & Hcontent & Hmap);
    try reflexivity.
  { intros map _. exists "map". split; [reflexivity | discriminate]. }
  exists stored. split; [exact Hsettled |]. split; [exact Hbytes |].
  split; [exact Hcontent |].
  exact (Hmap "mappings" "map" eq_refl eq_refl).
Defined.

(** * Further properties of the PostCSS transformer *)

Section TransformMore.
Context `{PostCSS}.
Implicit Types (asset : MutableAsset.t) (msg : Message.t).

Lemma extends_refl asset : extends asset asset.
Proof.
  unfold extends. repeat split; try done; exists []; by rewrite app_nil_r.
Qed.

Lemma extends_trans asset1 asset2 asset3 :
  extends asset1 asset2 → extends asset2 asset3 → extends asset1 asset3.
Proof.
  intros (Ht & Hp & Hf & Hc & [d Hd] & [x Hx] & [y Hy])
         (Ht' & Hp' & Hf' & Hc' & [d' Hd'] & [x' Hx'] & [y' Hy']).
  unfold extends. rewrite Ht', Hp', Hf', Hc', Hd', Hx', Hy', Hd, Hx, Hy.
  repeat split; try done; eexists; by rewrite <- app_assoc.
Qed.

Lemma extends_foldl {A} (f : MutableAsset.t → A → MutableAsset.t)
    (l : list A) :
  (∀ asset x, extends asset (f asset x)) →
  ∀ asset, extends asset (foldl f asset l).
Proof.
  intros Hf. induction l as [| x l IH]; intros asset; simpl.
  - apply extends_refl.
  - eapply extends_trans; [apply Hf | apply IH].
Qed.

Lemma extends_addDependency asset dep :
  extends asset (MutableAsset.addDependency dep asset).
Proof.
  unfold extends. simpl.
  repeat split; try done; [by eexists | exists [].. ]; by rewrite app_nil_r.
Qed.

Lemma extends_invalidateOnFileChange asset file :
  extends asset (MutableAsset.invalidateOnFileChange file asset).
Proof.
  unfold extends. simpl.
  repeat split; try done; [exists [] | by eexists | exists []];
    by rewrite app_nil_r.
Qed.

Lemma extends_invalidateOnFileCreate asset invalidation :
  extends asset (MutableAsset.invalidateOnFileCreate invalidation asset).
Proof.
  unfold extends. simpl.
  repeat split; try done; [exists [] | exists [] | by eexists];
    by rewrite app_nil_r.
Qed.

Lemma extends_handleMessage asset msg : extends asset (handleMessage asset msg).
Proof.
  unfold handleMessage.
  destruct (String.eqb (Message.type msg) "dependency");
    [apply extends_invalidateOnFileChange |].
  destruct (String.eqb (Message.type msg) "dir-dependency");
    [| apply extends_refl].
  eapply extends_trans; [| apply extends_invalidateOnFileCreate].
  apply (extends_foldl
           (λ asset file,
              MutableAsset.invalidateOnFileChange (normalize file) asset)).
  intros asset' file. apply extends_invalidateOnFileChange.
Qed.

(** X9. Whatever the configuration is and whether [transform] returns or
    throws, it leaves the asset with the type ['css'], with the file path,
    the file system and the code it had, and with the dependencies and the
    invalidations it had, in their order, before any that it adds; and
    without a configuration it returns the asset alone and adds none. *)
Theorem transform_extends asset config :
  extends (MutableAsset.setType "css" asset) (transform asset config).2
  ∧ transform asset None = (Ok [TheAsset], MutableAsset.setType "css" asset).
Proof.
  split; [| done]. unfold transform.
  destruct config as [config |]; [| apply extends_refl].
  destruct (loadPostcss _) as [[] |]; simpl; [| apply extends_refl].
  destruct (MutableAsset.ast asset) as [ast |]; simpl; [| apply extends_refl].
  set (asset1 := if _ : bool then _ else _).
  assert (extends (MutableAsset.setType "css" asset) asset1) as H1.
  { subst asset1.
    destruct (match (if MutableAsset.isASTDirty asset then _ else _) with
              | Some code => composesTest code
              | None => true
              end); [| apply extends_refl].
    apply (extends_foldl
             (λ asset dep, MutableAsset.addDependency dep asset)).
    intros asset' dep. apply extends_addDependency. }
  destruct (process config (fromJSON ast)) as [[[messages root] modules] |];
    simpl; [| done].
  assert (extends (MutableAsset.setType "css" asset)
            (foldl handleMessage (MutableAsset.setAST root asset1) messages))
    as H2.
  { eapply extends_trans; [exact H1 |].
    eapply extends_trans; [| apply extends_foldl, extends_handleMessage].
    unfold extends. simpl.
    repeat split; try done; exists []; by rewrite app_nil_r. }
  destruct modules as [modules |]; simpl; [| done].
  eapply extends_trans; [exact H2 |].
  unfold extends. simpl.
  repeat split; try done; exists []; by rewrite app_nil_r.
Qed.

(** X10. When [transform] runs PostCSS it records no invalidation but
    those of the messages: a file change invalidation that the asset did
    not have before is the file of a ['dependency'] message or a file
    that [glob] finds for a ['dir-dependency'] message, and a file create
    invalidation that it did not have before is the glob of a
    ['dir-dependency'] message. Messages of other types record nothing. *)
Theorem transform_records_only
    asset config ast messages root cssModules :
  loadPostcss (MutableAsset.filePath asset) = Ok tt →
  MutableAsset.ast asset = Some ast →
  process config (fromJSON ast) = Ok (messages, root, cssModules) →
  let asset' := (transform asset (Some config)).2 in
  (∀ file,
     file ∈ MutableAsset.fileChangeInvalidations asset' →
     file ∈ MutableAsset.fileChangeInvalidations asset
     ∨ ∃ msg,
         msg ∈ messages
         ∧ (Message.type msg = "dependency" ∧ file = Message.file msg
            ∨ Message.type msg = "dir-dependency"
              ∧ ∃ found,
                  found ∈ glob (dirPattern msg) (MutableAsset.fs asset)
                  ∧ file = normalize found))
  ∧ (∀ invalidation,
       invalidation ∈ MutableAsset.fileCreateInvalidations asset' →
       invalidation ∈ MutableAsset.fileCreateInvalidations asset
       ∨ ∃ msg,
           msg ∈ messages
           ∧ Message.type msg = "dir-dependency"
           ∧ invalidation = GlobInvalidation (dirPattern msg)).
Proof.
  intros Hload Hast Hprocess asset'.
  destruct (transform_records asset config ast messages root cssModules
              Hload Hast Hprocess)
    as (results & asset1 & Htransform & Hchange & Hcreate).
  subst asset'. rewrite Htransform. simpl. rewrite Hchange, Hcreate. split.
  - intros file [Hold | Hnew]%elem_of_app; [by left | right].
    apply list_elem_of_bind in Hnew as (msg & Hfile & Hmsg).
    exists msg. split; [done |].
    unfold messageFileChanges in Hfile.
    destruct (String.eqb_spec (Message.type msg) "dependency") as [Ht | _].
    { left. apply list_elem_of_singleton in Hfile. done. }
    destruct (String.eqb_spec (Message.type msg) "dir-dependency")
      as [Ht | _]; [| by apply elem_of_nil in Hfile].
    right. split; [done |].
    apply list_elem_of_fmap in Hfile as (found & -> & Hfound). by exists found.
  - intros invalidation [Hold | Hnew]%elem_of_app; [by left | right].
    apply list_elem_of_bind in Hnew as (msg & Hglob & Hmsg).
    exists msg. split; [done |].
    unfold messageFileCreates in Hglob.
    destruct (String.eqb_spec (Message.type msg) "dependency") as [Ht | _];
      [by apply elem_of_nil in Hglob |].
    destruct (String.eqb_spec (Message.type msg) "dir-dependency")
      as [Ht | _]; [| by apply elem_of_nil in Hglob].
    apply list_elem_of_singleton in Hglob. done.
Qed.
End TransformMore.

Section CssTransformerFacts.
Context `{PostCSSTools}.

(** X11. Without a configuration [parse] returns nothing, and does not
    load PostCSS to find that out. With one, every AST that it returns has
    the type ['postcss'] and the version ['8.2.1'], so that [canReuseAST]
    accepts it exactly when [POSTCSS_RANGE] admits that version; and
    [canReuseAST] rejects an AST of another type whatever its version. *)
Theorem parse_canReuseAST filePath code :
  CssTransformer.parse filePath code None = Ok None
  ∧ (∀ config ast,
       CssTransformer.parse filePath code (Some config) = Ok (Some ast) →
       loadPostcss filePath = Ok tt
       ∧ CssTransformer.canReuseAST ast = satisfies "8.2.1" POSTCSS_RANGE)
  ∧ (∀ ast : CssAST.t,
       CssAST.type ast ≠ "postcss" → CssTransformer.canReuseAST ast = false).
Proof.
  split; [done |]. split.
  - intros config ast. unfold CssTransformer.parse.
    destruct (loadPostcss filePath) as [[] |]; simpl; [| done].
    destruct (parseToJSON code filePath) as [program |]; simpl; [| done].
    by intros [= <-].
  - intros ast Htype. unfold CssTransformer.canReuseAST.
    by destruct (String.eqb_spec (CssAST.type ast) "postcss").
Qed.

Lemma substring_length (n : nat) (s : string) :
  (String.length (String.substring 0 n s) ≤ n)%nat.
Proof.
  revert s. induction n as [| n IH]; intros [| c s]; simpl; try lia.
  specialize (IH s). lia.
Qed.

(** X12. Within one file, [generateScopedName] gives two class names the
    same scoped name only if they are the same name; and a scoped name is
    the class name between two underscores, followed by at most six
    characters of the hash of the path of the file. *)
Theorem generateScopedName_inj projectRoot filename name1 name2 :
  CssTransformer.generateScopedName projectRoot name1 filename
  = CssTransformer.generateScopedName projectRoot name2 filename →
  name1 = name2
  ∧ ∃ suffix,
      (String.length suffix ≤ 6)%nat
      ∧ CssTransformer.generateScopedName projectRoot name1 filename
        = "_" +:+ name1 +:+ "_" +:+ suffix.
Proof.
  unfold CssTransformer.generateScopedName. intros Heq. split.
  - apply (inj (String.append "_")) in Heq.
    by apply identityInput_tail in Heq.
  - eexists. split; [apply substring_length | done].
Qed.
End CssTransformerFacts.

Section LoaderFacts.
Import ParcelFileSystemLoader.

Lemma dropLastQuote_snoc (s : string) q :
  isQuote q = true → dropLastQuote (s +:+ String q EmptyString) = s.
Proof.
  intros Hq. induction s as [| c s IH].
  - simpl. by rewrite Hq.
  - rewrite append_cons.
    change (dropLastQuote (String c (s +:+ String q EmptyString)))
      with (match s +:+ String q EmptyString with
            | EmptyString =>
              if isQuote c then EmptyString
              else String c (s +:+ String q EmptyString)
            | String _ _ =>
              String c (dropLastQuote (s +:+ String q EmptyString))
            end).
    rewrite IH. by destruct s.
Qed.

Lemma stripQuotes_quoted (p : string) q q' :
  isQuote q = true → isQuote q' = true →
  stripQuotes (String q (p +:+ String q' EmptyString)) = p.
Proof.
  intros Hq Hq'. unfold stripQuotes, dropFirstQuote. rewrite Hq.
  by apply dropLastQuote_snoc.
Qed.

Lemma prefix_append (root rest : string) :
  String.prefix root (root +:+ rest) = true.
Proof.
  induction root as [| c root IH]; [by destruct rest |].
  rewrite append_cons. simpl. by destruct (Ascii.ascii_dec c c).
Qed.

Lemma substr_append (root rest : string) :
  substr (String.length root) (root +:+ rest) = rest.
Proof. induction root as [| c root IH]; [done |]. by rewrite append_cons. Qed.

Context `{PostCSSTools}.

(** X13. [fetch] takes one quote off each end of the path it is given, and
    no more: a path between two quotes, single or double, alike or not, is
    fetched as the path between them is, when that path has no quote at
    its own ends. *)
Theorem fetch_quoted fs (p relativeTo : string) q q' :
  isQuote q = true → isQuote q' = true →
  stripQuotes (String q (p +:+ String q' EmptyString)) = p
  ∧ (stripQuotes p = p →
     fetch fs (String q (p +:+ String q' EmptyString)) relativeTo
     = fetch fs p relativeTo).
Proof.
  intros Hq Hq'. split; [by apply stripQuotes_quoted |].
  intros Hp. unfold fetch. by rewrite stripQuotes_quoted, Hp.
Qed.

(** X14. [fetch] hands [core.load] the resolved path without the root it
    starts with: the root followed by what [core.load] is handed is the
    resolved path; and a path that does not start with the root is handed
    over as it is. *)
Theorem fetch_withoutRoot fs composesPath relativeTo resolved :
  resolveSpecifier relativeTo (stripQuotes composesPath) = Ok resolved →
  (∀ rest,
     pathResolve (dirname relativeTo) resolved = rootPath +:+ rest →
     fetch fs composesPath relativeTo
     = (try source := readFile fs resolved in coreLoad source rest)%result)
  ∧ (String.prefix rootPath (pathResolve (dirname relativeTo) resolved)
     = false →
     fetch fs composesPath relativeTo
     = (try source := readFile fs resolved in
        coreLoad source (pathResolve (dirname relativeTo) resolved))%result).
Proof.
  intros Hresolve. unfold fetch, withoutRoot. rewrite Hresolve. simpl. split.
  - intros rest ->. by rewrite prefix_append, substr_append.
  - by intros ->.
Qed.
End LoaderFacts.

Section PostCSSGeneration.
Context `{PostCSSTools} `{!PluginLoader}.

(** X15. When the plugin of an asset value is the PostCSS transformer,
    the first call of [generateFromAST] for it is fulfilled with the code
    that PostCSS prints for the AST, as a string and with no map, and it
    stores that code under the content key and nothing else: the map key
    is neither needed nor written. *)
Theorem generateFromAST_postcss asset st ast pluginName configPath
    configKeyPath plugin contentKey :
  generateResults st !! address (value asset) = None →
  getAST asset = Some ast →
  Asset.plugin (fields (value asset)) = Some pluginName →
  Asset.configPath (fields (value asset)) = Some configPath →
  Asset.configKeyPath (fields (value asset)) = Some configKeyPath →
  loadPlugin pluginName configPath configKeyPath (options asset) = Ok plugin →
  generate plugin
  = Some (λ v ast _, CssTransformer.generate (Asset.filePath v) ast) →
  loadPostcss (Asset.filePath (fields (value asset))) = Ok tt →
  Asset.contentKey (fields (value asset)) = Some contentKey →
  Promise.settled (generateFromAST asset st).1
  = Ok {| GenerateOutput.content := BlobString (stringify (fromJSON ast));
          GenerateOutput.map := None |}
  ∧ cache (generateFromAST asset st).2
    = <[contentKey := stringify (fromJSON ast)]> (cache st).
Proof.
  intros Hfresh Hast Hplugin Hpath Hkey Hload Hgenerate Hpostcss Hcontent.
  destruct (generateFromAST_fresh_settled asset st Hfresh)
    as (p & st' & Hcall & Hsettled & Hcache & _).
  rewrite Hcall. simpl. rewrite Hsettled, Hcache. clear Hcall Hsettled Hcache.
  unfold generateBody, bind, lift, ret, throw, nullthrows, logGenerate,
    cacheSet, cacheGetStream.
  rewrite Hast, Hplugin, Hpath, Hkey. simpl.
  rewrite Hload. simpl. rewrite Hgenerate. simpl.
  unfold CssTransformer.generate. rewrite Hpostcss. simpl.
  by rewrite Hcontent.
Qed.
End PostCSSGeneration.

Section AssetMore.
Context `{Collaborators}.

(** X16. [createAsset] stores the empty string for a [uniqueKey] that the
    options leave out, and nothing is lost by that: options in which
    [uniqueKey] is replaced by the one that the asset stores have the same
    identity and create the same asset. *)
Theorem createAsset_uniqueKey_stored (options : AssetOptions.t) :
  let stored := Asset.uniqueKey (createAsset options) in
  createAssetIdFromOptions (AssetOptions.withUniqueKey (Some stored) options)
  = createAssetIdFromOptions options
  ∧ createAsset (AssetOptions.withUniqueKey (Some stored) options)
    = createAsset options.
Proof.
  unfold createAsset, createAssetIdFromOptions. simpl.
  by destruct (AssetOptions.uniqueKey options).
Qed.
End AssetMore.

Lemma transform_records_only_witness :
  let asset' :=
    (@transform Sample.collaborators Sample.postcss Sample.mutableAsset
       (Some tt)).2 in
  @loadPostcss Sample.collaborators Sample.postcss "src/a.pcss" = Ok tt
  ∧ (∀ invalidation,
       invalidation ∈ MutableAsset.fileCreateInvalidations asset' →
       invalidation = GlobInvalidation "src/icons/**/*").
Proof.
  intros asset'. split; [reflexivity |].
  destruct (@transform_records_only Sample.collaborators Sample.postcss
              Sample.mutableAsset tt "a{}"
              [Sample.importMessage; Sample.dirMessage] "a{}" None
              eq_refl eq_refl eq_refl)
    as [_ Hcreate].
  intros invalidation Hin.
  destruct (Hcreate invalidation Hin) as [Hold | (msg & Hmsg & Htype & ->)].
  - by apply elem_of_nil in Hold.
  - repeat (apply elem_of_cons in Hmsg as [-> | Hmsg]);
      [discriminate Htype | reflexivity | by apply elem_of_nil in Hmsg].
Defined.

Lemma parse_canReuseAST_witness :
  ∃ ast,
    @CssTransformer.parse Sample.collaborators Sample.postcss
      SampleTools.tools "src/a.pcss" "a{}" (Some tt)
    = Ok (Some ast)
    ∧ @CssTransformer.canReuseAST Sample.collaborators Sample.postcss
        SampleTools.tools ast
      = true.
Proof.
  eexists. split; [reflexivity |].
  exact (proj2 (proj1 (proj2 (@parse_canReuseAST Sample.collaborators
                                Sample.postcss SampleTools.tools
                                "src/a.pcss" "a{}"))
                  tt _ eq_refl)).
Defined.

Lemma generateScopedName_inj_witness :
  ∃ suffix,
    (String.length suffix ≤ 6)%nat
    ∧ @CssTransformer.generateScopedName Sample.collaborators Sample.postcss
        SampleTools.tools "/project" "title" "/project/src/a.css"
      = "_title_" +:+ suffix.
Proof.
  destruct (@generateScopedName_inj Sample.collaborators Sample.postcss
              SampleTools.tools "/project" "/project/src/a.css"
              "title" "title" eq_refl)
    as (_ & suffix & Hlength & Hname).
  exists suffix. split; [exact Hlength | exact Hname].
Defined.

Example stripQuotes_samples :
  ParcelFileSystemLoader.stripQuotes "'./a.css'" = "./a.css"
  ∧ ParcelFileSystemLoader.stripQuotes "./a.css'" = "./a.css"
  ∧ ParcelFileSystemLoader.stripQuotes "'./a.css" = "./a.css"
  ∧ ParcelFileSystemLoader.stripQuotes "''./a.css''" = "'./a.css'"
  ∧ ParcelFileSystemLoader.stripQuotes "'" = ""
  ∧ ParcelFileSystemLoader.stripQuotes "it's" = "it's".
Proof. repeat split; reflexivity. Qed.

Lemma fetch_quoted_witness :
  @ParcelFileSystemLoader.fetch Sample.collaborators Sample.postcss
    SampleTools.tools {["/project/a.css" := ".a{}"]} "'a.css'"
    "/project/src/x.css"
  = @ParcelFileSystemLoader.fetch Sample.collaborators Sample.postcss
      SampleTools.tools {["/project/a.css" := ".a{}"]} "a.css"
      "/project/src/x.css".
Proof.
  exact (proj2 (@fetch_quoted Sample.collaborators Sample.postcss
                  SampleTools.tools {["/project/a.css" := ".a{}"]}
                  "a.css" "/project/src/x.css"
                  (Ascii.ascii_of_nat 39) (Ascii.ascii_of_nat 39)
                  eq_refl eq_refl)
           eq_refl).
Defined.

Lemma fetch_withoutRoot_witness :
  @ParcelFileSystemLoader.fetch Sample.collaborators Sample.postcss
    SampleTools.tools {["/project/a.css" := ".a{}"]} "'a.css'"
    "/project/src/x.css"
  = Ok "project/a.css:.a{}".
Proof.
  rewrite (proj1 (@fetch_withoutRoot Sample.collaborators Sample.postcss
                    SampleTools.tools {["/project/a.css" := ".a{}"]}
                    "'a.css'" "/project/src/x.css" "/project/a.css"
                    eq_refl)
             "project/a.css" eq_refl).
  reflexivity.
Defined.

Lemma generateFromAST_postcss_witness :
  Promise.settled
    (@generateFromAST Sample.collaborators SampleTools.postcssLoader
       Sample.withAST (initialState ∅)).1
  = Ok (Sample.printed "body{}")
  ∧ cache
      (@generateFromAST Sample.collaborators SampleTools.postcssLoader
         Sample.withAST (initialState ∅)).2
    = {["content" := "body{}"]}.
Proof.
  exact (@generateFromAST_postcss Sample.collaborators Sample.postcss
           SampleTools.tools SampleTools.postcssLoader Sample.withAST
           (initialState ∅) "body{}" "@parcel/transformer-postcss"
           ".parcelrc" "transformers" SampleTools.postcssPlugin "content"
           eq_refl eq_refl eq_refl eq_refl eq_refl eq_refl eq_refl eq_refl
           eq_refl).
Defined.
